(** * ComputeFabric orchestrator: a shallow embedding of the job store,
      the HTTP handlers, the job runner, the Docker image validator and the
      Stripe connector, over the PostgreSQL tables they use, with the
      properties of the scheduling/settlement engine. *)

From Stdlib Require Import ZArith List String Ascii Bool Lia.
From Stdlib Require Import Floats.SpecFloat Strings.Byte Sorted Permutation DecimalString.
Import ListNotations.
Open Scope Z_scope.

(** ** JavaScript numbers

    A JS [number] is an IEEE-754 binary64 value; we use the Gallina
    specification of binary floating point from the Standard Library
    ([prec] = 53 bits of mantissa, [emax] = 1024). *)
Module JSNum.

Definition prec : Z := 53.
Definition emax : Z := 1024.

Definition num := spec_float.

(** An integer literal or an integer-valued result, rounded to nearest. *)
Definition of_Z (z : Z) : num := binary_normalize prec emax z 0 false.

Definition add (x y : num) : num := SFadd prec emax x y.
Definition sub (x y : num) : num := SFsub prec emax x y.
Definition mul (x y : num) : num := SFmul prec emax x y.
Definition div (x y : num) : num := SFdiv prec emax x y.

(** [x > y] and [x > 0] as JavaScript evaluates them (false on NaN). *)
Definition gtb (x y : num) : bool :=
  match SFcompare x y with Some Gt => true | _ => false end.

(** [Math.round x]: the integer [floor (x + 1/2)], computed exactly;
    a negative argument that rounds to zero gives [-0]; zeros,
    infinities and NaN are returned unchanged. For a finite value
    [n * 2^e] with [e >= 0] the value is already an integer. *)
Definition math_round (x : num) : num :=
  match x with
  | S754_finite s m e =>
      let n := if s then Z.neg m else Z.pos m in
      match e with
      | Z.neg k =>
          let d := 2 ^ Z.pos k in
          binary_normalize prec emax ((2 * n + d) / (2 * d)) 0 s
      | _ => x
      end
  | _ => x
  end.

(** The literal [0.10]: the double nearest to 1/10, which is the
    correctly rounded quotient 1/10. *)
Definition lit_0_10 : num := div (of_Z 1) (of_Z 10).

(** The literal [0.5]. *)
Definition lit_0_5 : num := div (of_Z 1) (of_Z 2).

(** The literal [0.8]. *)
Definition lit_0_8 : num := div (of_Z 4) (of_Z 5).

Definition zero : num := S754_zero false.

End JSNum.

Import JSNum.

(** ** [NUMERIC(10,2)] columns

    The code writes a number [x] to a [NUMERIC(10,2)] column as
    [x.toString()] and reads the column back with [parseFloat]. *)
Module PgNumeric.

(** [Number::toString] prints a finite non-zero [x] as the decimal
    [q * 10^p] with the fewest digits whose nearest double is [x]; among
    those with that many digits, the one closest to [x] (ties: even [q]).
    The decimals whose nearest double is [x = m * 2^e] are those in the
    rounding interval [[lo * 2^f, hi * 2^f]] with [f = e - 2]; its ends
    belong to it when [m] is even (ties round to even). At a power of two
    the interval below is half as wide. *)
Definition emin : Z := 3 - emax - prec.

Record interval := mkInterval {
  lo : Z;
  hi : Z;
  incl : bool;
  f2 : Z;
  mid : Z
}.

Definition rounding_interval (m : positive) (e : Z) : interval :=
  let lo := if Pos.eqb m (2 ^ 52) && (emin <? e) then 4 * Zpos m - 1
            else 4 * Zpos m - 2 in
  mkInterval lo (4 * Zpos m + 2) (Z.even (Zpos m)) (e - 2) (4 * Zpos m).

(** [n * 2^f / 10^p] as a numerator over a positive denominator. *)
Definition scaled (n f p : Z) : Z * Z :=
  (n * 2 ^ Z.max f 0 * 10 ^ Z.max (- p) 0, 2 ^ Z.max (- f) 0 * 10 ^ Z.max p 0).

Definition ceil_div (a b : Z) : Z := - ((- a) / b).

(** The integers [q] with [q * 10^p] in the rounding interval. *)
Definition q_range (iv : interval) (p : Z) : Z * Z :=
  let (ln, d) := scaled (lo iv) (f2 iv) p in
  let (hn, _) := scaled (hi iv) (f2 iv) p in
  if incl iv then (ceil_div ln d, hn / d)
  else (ln / d + 1, ceil_div hn d - 1).

Definition round_half_even (a b : Z) : Z :=
  let (q, r) := Z.div_eucl a b in
  if 2 * r <? b then q else if b <? 2 * r then q + 1
  else if Z.even q then q else q + 1.

(** The [q] of the range closest to [x / 10^p]. *)
Definition closest (iv : interval) (p : Z) : Z :=
  let (qmin, qmax) := q_range iv p in
  let (cn, d) := scaled (mid iv) (f2 iv) p in
  Z.max qmin (Z.min qmax (round_half_even cn d)).

(** From an exponent [p] with [10^p] above the interval, the first [p]
    going down at which some [q] exists (then [q] has the fewest digits). *)
Fixpoint search (iv : interval) (fuel : nat) (p : Z) : Z * Z :=
  match fuel with
  | O => (0, 0)
  | S fu =>
      let (qmin, qmax) := q_range iv p in
      if qmin <=? qmax then (closest iv p, p) else search iv fu (p - 1)
  end.

(** [10^p] with [p] above [log10 (hi * 2^f)]: [4/13] and [3/10] bound
    [log10 2] from above and below. *)
Definition start_exp (iv : interval) : Z :=
  let l2 := Z.log2 (hi iv) + f2 iv + 1 in
  if 0 <=? l2 then l2 * 4 / 13 + 1 else l2 * 3 / 10 + 1.

Definition shortest_decimal (m : positive) (e : Z) : Z * Z :=
  let iv := rounding_interval m e in search iv 2200 (start_exp iv).

(** A [NUMERIC(10,2)] value: a number of cents, or [NaN]. *)
Inductive numeric := NumCents (c : Z) | NumNaN.

(** [q * 10^p] rounded to two decimals, half away from zero (on the
    magnitude). *)
Definition cents_of (q p : Z) : Z :=
  if -2 <=? p then q * 10 ^ (p + 2)
  else let d := 10 ^ (- p - 2) in
       let (c, r) := Z.div_eucl q d in if d <=? 2 * r then c + 1 else c.

(** [x.toString()] stored in a [NUMERIC(10,2)] column: rounded to cents;
    at most 8 digits before the point; ["NaN"] is accepted,
    ["Infinity"] is not. *)
Definition to_numeric (x : num) : numeric + string :=
  match x with
  | S754_zero _ => inl (NumCents 0)
  | S754_nan => inl NumNaN
  | S754_infinity _ => inr "numeric field overflow"%string
  | S754_finite s m e =>
      let (q, p) := shortest_decimal m e in
      let c := cents_of q p in
      if 10 ^ 10 <=? c then inr "numeric field overflow"%string
      else inl (NumCents (if s then - c else c))
  end.

(** [parseFloat] of the column text (two decimals): the double nearest
    to [c / 100], which is the correctly rounded quotient. *)
Definition numeric_value (n : numeric) : num :=
  match n with
  | NumCents c => div (of_Z c) (of_Z 100)
  | NumNaN => S754_nan
  end.

End PgNumeric.

Import PgNumeric.

(** ** Regular expressions, as used by [RegExp.prototype.test] with the
    anchors [^...$]: the string must be in the language of the pattern.
    Strings are ASCII; a character class is a boolean predicate (for the
    [i] flag, the class closed under ASCII case). *)
Module Regex.

Inductive re : Type :=
| Empty
| Eps
| Chr (p : ascii -> bool)
| Cat (r s : re)
| Alt (r s : re)
| Star (r : re).

Inductive matches : re -> list ascii -> Prop :=
| m_eps : matches Eps []
| m_chr p c : p c = true -> matches (Chr p) [c]
| m_cat r s u v : matches r u -> matches s v -> matches (Cat r s) (u ++ v)
| m_altl r s u : matches r u -> matches (Alt r s) u
| m_altr r s u : matches s u -> matches (Alt r s) u
| m_star0 r : matches (Star r) []
| m_starS r u v : matches r u -> matches (Star r) v -> matches (Star r) (u ++ v).

(** [r+] *)
Definition Plus (r : re) : re := Cat r (Star r).
(** [r?] *)
Definition Opt (r : re) : re := Alt Eps r.
(** [r{0,n}] *)
Fixpoint UpTo (n : nat) (r : re) : re :=
  match n with
  | O => Eps
  | S k => Alt Eps (Cat r (UpTo k r))
  end.
(** [r{n}] *)
Fixpoint Rep (n : nat) (r : re) : re :=
  match n with
  | O => Eps
  | S k => Cat r (Rep k r)
  end.
(** a literal character *)
Definition Lit (c : ascii) : re := Chr (fun d => Ascii.eqb d c).

(** The executable matcher: Brzozowski derivatives. *)
Fixpoint nullable (r : re) : bool :=
  match r with
  | Empty => false
  | Eps => true
  | Chr _ => false
  | Cat r s => nullable r && nullable s
  | Alt r s => nullable r || nullable s
  | Star _ => true
  end.

Fixpoint deriv (c : ascii) (r : re) : re :=
  match r with
  | Empty | Eps => Empty
  | Chr p => if p c then Eps else Empty
  | Cat r s =>
      if nullable r then Alt (Cat (deriv c r) s) (deriv c s)
      else Cat (deriv c r) s
  | Alt r s => Alt (deriv c r) (deriv c s)
  | Star r => Cat (deriv c r) (Star r)
  end.

Definition matchb (r : re) (s : list ascii) : bool :=
  nullable (fold_left (fun r c => deriv c r) s r).

(** ASCII character classes. *)
Definition between (lo hi c : ascii) : bool :=
  (N.leb (N_of_ascii lo) (N_of_ascii c) && N.leb (N_of_ascii c) (N_of_ascii hi))%bool.
Definition is_lower (c : ascii) : bool := between "a" "z" c.
Definition is_upper (c : ascii) : bool := between "A" "Z" c.
Definition is_digit (c : ascii) : bool := between "0" "9" c.

(** [[a-z0-9]] under the [i] flag *)
Definition alnum_i (c : ascii) : bool := is_lower c || is_upper c || is_digit c.
(** [\w] (the [i] flag adds nothing outside unicode mode) *)
Definition word (c : ascii) : bool := alnum_i c || Ascii.eqb c "_".
(** [[\w.-]] *)
Definition tag_char (c : ascii) : bool :=
  word c || Ascii.eqb c "." || Ascii.eqb c "-".
(** [[0-9a-f]] under the [i] flag *)
Definition hex_i (c : ascii) : bool :=
  is_digit c || between "a" "f" c || between "A" "F" c.

End Regex.

(** ** Docker manager (containerization/docker-manager.ts) *)
Module DockerManager.
Import Regex.

(** [/^[a-z0-9]+(\/[a-z0-9]+)*(:[\w][\w.-]{0,127})?$/i] *)
Definition validImagePattern : re :=
  Cat (Plus (Chr alnum_i))
    (Cat (Star (Cat (Lit "/") (Plus (Chr alnum_i))))
       (Opt (Cat (Lit ":") (Cat (Chr word) (UpTo 127 (Chr tag_char)))))).

(** [validateImageName(imageName)]: [!imageName] rejects the empty
    string, then the pattern is tested. *)
Definition validateImageName (imageName : string) : bool :=
  match imageName with
  | EmptyString => false
  | _ => matchb validImagePattern (list_ascii_of_string imageName)
  end.

Record ContainerConfig := mkContainerConfig {
  cc_image : string;
  cc_command : option string;
  cc_gpus : option bool;
  cc_memoryLimit : option string;
  cc_cpuLimit : option Z
}.

(** [generateContainerConfig(jobConfig)]: throws on an invalid image,
    else fills in the defaults ([env] and [volumes] are not modelled). *)
Definition generateContainerConfig (jobConfig : ContainerConfig)
  : ContainerConfig + string :=
  if negb (validateImageName (cc_image jobConfig))
  then inr ("Invalid Docker image name: " ++ cc_image jobConfig)%string
  else inl (mkContainerConfig (cc_image jobConfig)
              (Some (match cc_command jobConfig with
                     | Some c => c | None => EmptyString end))
              (Some (match cc_gpus jobConfig with
                     | Some g => g | None => true end))
              (Some (match cc_memoryLimit jobConfig with
                     | Some (String a r) => String a r | _ => "4g"%string end))
              (Some (match cc_cpuLimit jobConfig with
                     | Some (Zpos _ as n) | Some (Zneg _ as n) => n
                     | _ => 2 end))).

End DockerManager.

Import Regex DockerManager.

(** The strings [validImagePattern] describes, written out: one or more
    non-empty segments of ASCII letters (either case) and digits joined by
    ["/"], then optionally [":"] and a tag of a [\w] character followed by
    at most 127 characters of [[\w.-]]. *)
Definition segment_ok (seg : list ascii) : Prop :=
  seg <> [] /\ Forall (fun c => alnum_i c = true) seg.

Definition tag_ok (t : list ascii) : Prop :=
  exists c rest, t = c :: rest /\ word c = true /\
    Forall (fun d => tag_char d = true) rest /\ (List.length rest <= 127)%nat.

Definition image_shape (s : list ascii) : Prop :=
  exists seg segs tag,
    s = seg ++ List.concat (map (cons "/"%char) segs) ++ tag /\
    segment_ok seg /\ Forall segment_ok segs /\
    (tag = [] \/ exists t, tag = ":"%char :: t /\ tag_ok t).


(** ** The [uuid] column type

    A UUID is 16 bytes. PostgreSQL prints it as 32 lowercase hexadecimal
    digits in groups of 8, 4, 4, 4 and 12, and reads it with
    [string_to_uuid] (src/backend/utils/adt/uuid.c). *)
Module PgUuid.

Record Uuid := mkUuid {
  u0 : byte; u1 : byte; u2 : byte; u3 : byte;
  u4 : byte; u5 : byte; u6 : byte; u7 : byte;
  u8 : byte; u9 : byte; u10 : byte; u11 : byte;
  u12 : byte; u13 : byte; u14 : byte; u15 : byte
}.

(** Equality of the 16 bytes. *)
Definition uuid_eqb (a b : Uuid) : bool :=
  Byte.eqb (u0 a) (u0 b) && Byte.eqb (u1 a) (u1 b) &&
  Byte.eqb (u2 a) (u2 b) && Byte.eqb (u3 a) (u3 b) &&
  Byte.eqb (u4 a) (u4 b) && Byte.eqb (u5 a) (u5 b) &&
  Byte.eqb (u6 a) (u6 b) && Byte.eqb (u7 a) (u7 b) &&
  Byte.eqb (u8 a) (u8 b) && Byte.eqb (u9 a) (u9 b) &&
  Byte.eqb (u10 a) (u10 b) && Byte.eqb (u11 a) (u11 b) &&
  Byte.eqb (u12 a) (u12 b) && Byte.eqb (u13 a) (u13 b) &&
  Byte.eqb (u14 a) (u14 b) && Byte.eqb (u15 a) (u15 b).

(** [uuid_out]: the lowercase hexadecimal digits of each byte. *)
Definition hex_digit (n : nat) : ascii :=
  ascii_of_nat (if Nat.ltb n 10 then 48 + n else 87 + n).
Definition hex_hi (b : byte) : ascii := hex_digit (Nat.div (Byte.to_nat b) 16).
Definition hex_lo (b : byte) : ascii := hex_digit (Nat.modulo (Byte.to_nat b) 16).
Definition hex2 (b : byte) : list ascii := [hex_hi b; hex_lo b].

Definition uuid_chars (u : Uuid) : list ascii :=
  hex2 (u0 u) ++ hex2 (u1 u) ++ hex2 (u2 u) ++ hex2 (u3 u) ++ ["-"%char] ++
  hex2 (u4 u) ++ hex2 (u5 u) ++ ["-"%char] ++
  hex2 (u6 u) ++ hex2 (u7 u) ++ ["-"%char] ++
  hex2 (u8 u) ++ hex2 (u9 u) ++ ["-"%char] ++
  hex2 (u10 u) ++ hex2 (u11 u) ++ hex2 (u12 u) ++ hex2 (u13 u) ++
  hex2 (u14 u) ++ hex2 (u15 u).

(** The text the driver hands to JavaScript for a [uuid] value. *)
Definition uuid_text (u : Uuid) : string := string_of_list_ascii (uuid_chars u).

(** [isxdigit] in the C locale. *)
Definition isxdigit (c : ascii) : bool :=
  between "0" "9" c || between "a" "f" c || between "A" "F" c.

(** [strtoul] of one hexadecimal digit. *)
Definition hex_value (c : ascii) : nat :=
  let n := nat_of_ascii c in
  if Nat.leb n 57 then n - 48 else if Nat.leb n 70 then n - 55 else n - 87.

Definition byte_of (n : nat) : byte :=
  match Byte.of_nat n with Some b => b | None => x00 end.

(** The loop of [string_to_uuid]: [n] more bytes from [l], the [i]-th
    next; after an odd byte but the last, one ["-"] may follow. *)
Fixpoint uuid_bytes (n i : nat) (l : list ascii) : option (list byte * list ascii) :=
  match n with
  | O => Some ([], l)
  | S n' =>
      match l with
      | c1 :: c2 :: rest =>
          if isxdigit c1 && isxdigit c2 then
            let b := byte_of (hex_value c1 * 16 + hex_value c2) in
            let rest' :=
              match rest with
              | d :: r => if Ascii.eqb d "-" && Nat.odd i && Nat.ltb i 15 then r else rest
              | [] => rest
              end in
            match uuid_bytes n' (S i) rest' with
            | Some (bs, r) => Some (b :: bs, r)
            | None => None
            end
          else None
      | _ => None
      end
  end.

Definition uuid_of_bytes (bs : list byte) : option Uuid :=
  match bs with
  | [b0; b1; b2; b3; b4; b5; b6; b7; b8; b9; b10; b11; b12; b13; b14; b15] =>
      Some (mkUuid b0 b1 b2 b3 b4 b5 b6 b7 b8 b9 b10 b11 b12 b13 b14 b15)
  | _ => None
  end.

(** [string_to_uuid]: an optional ["{"] (then a closing ["}"] is
    required), 16 bytes, and nothing after; [None] is the error
    "invalid input syntax for type uuid". *)
Definition pg_uuid (s : string) : option Uuid :=
  let l := list_ascii_of_string s in
  let '(braces, l) :=
    match l with
    | c :: r => if Ascii.eqb c "{" then (true, r) else (false, l)
    | [] => (false, l)
    end in
  match uuid_bytes 16 0 l with
  | Some (bs, rest) =>
      let rest :=
        if braces then match rest with
                       | c :: r => if Ascii.eqb c "}" then Some r else None
                       | [] => None
                       end
        else Some rest in
      match rest with
      | Some [] => uuid_of_bytes bs
      | _ => None
      end
  | None => None
  end.

End PgUuid.

Import PgUuid.

(** ** Stripe connector: rate and cost (payment/stripe-connector.ts) *)
Module Stripe.

(** [getComputeRate()]: [return 0.10;] *)
Definition getComputeRate : num := lit_0_10.

(** A [Date] is its time value, an integer number of milliseconds. *)
Definition Date := Z.

(** [calculateJobCost(startTime, endTime)].
    [endTime.getTime() - startTime.getTime()] subtracts two integer-valued
    doubles; IEEE subtraction is the exact difference rounded to nearest,
    which is [of_Z (endTime - startTime)]. *)
Definition calculateJobCost (startTime endTime : Date) : num :=
  let durationMs := of_Z (endTime - startTime) in
  let durationMinutes := div (div durationMs (of_Z 1000)) (of_Z 60) in
  let rate := getComputeRate in
  let cost := mul durationMinutes rate in
  div (math_round (mul cost (of_Z 100))) (of_Z 100).

(** [calculateProviderEarnings(jobCost)] *)
Definition calculateProviderEarnings (jobCost : num) : num :=
  let providerShare := lit_0_8 in
  div (math_round (mul (mul jobCost providerShare) (of_Z 100))) (of_Z 100).

End Stripe.

Import Stripe.

(** ** Database rows (orchestrator/src/db.ts, migrate.ts) *)

(** [jobs.status] holds one of the five strings written by the code. *)
Inductive JobStatus := Queued | Assigned | Running | Completed | Failed.

Definition JobStatus_eqb (a b : JobStatus) : bool :=
  match a, b with
  | Queued, Queued | Assigned, Assigned | Running, Running
  | Completed, Completed | Failed, Failed => true
  | _, _ => false
  end.

Definition status_str (s : JobStatus) : string :=
  match s with
  | Queued => "queued" | Assigned => "assigned" | Running => "running"
  | Completed => "completed" | Failed => "failed"
  end.

Inductive ProviderStatus := POffline | POnline | PBusy.

Definition ProviderStatus_eqb (a b : ProviderStatus) : bool :=
  match a, b with
  | POffline, POffline | POnline, POnline | PBusy, PBusy => true
  | _, _ => false
  end.

Inductive PaymentStatus := PayPending | PaySucceeded | PayFailed.

(** A [jobs] row: [uuid] columns hold UUIDs, [docker_image] is a nullable
    [VARCHAR(255)], [command] a nullable [TEXT], [cost] a
    [NUMERIC(10,2)]. *)
Record Job := mkJob {
  id : Uuid;
  userId : Uuid;
  providerId : option Uuid;
  dockerImage : option string;
  command : option string;
  status : JobStatus;
  createdAt : Date;
  startedAt : option Date;
  finishedAt : option Date;
  cost : numeric
}.

(** A [providers] row; [gpu_specs] is the JSON text of a string. *)
Record Provider := mkProvider {
  p_id : Uuid;
  p_ownerId : option Uuid;
  p_status : ProviderStatus;
  p_gpuSpecs : string;
  p_createdAt : Date
}.

Record Payment := mkPayment {
  pay_id : Uuid;
  pay_jobId : Uuid;
  pay_amount : numeric;
  pay_status : PaymentStatus;
  pay_createdAt : Date
}.

(** The [Job] interface of job-queue.ts: what [dbJobToJob] and
    [createJob] return ([None] is [null] or an absent field). *)
Record JobObj := mkJobObj {
  o_id : string;
  o_userId : string;
  o_providerId : option string;
  o_dockerImage : string;
  o_command : option string;
  o_status : JobStatus;
  o_createdAt : Date;
  o_startedAt : option Date;
  o_finishedAt : option Date;
  o_cost : num
}.

(** The database, plus the number of [uuidv4()] draws and of
    [new Date()] reads made so far. *)
Record State := mkState {
  jobs : list Job;
  providers : list Provider;
  payments : list Payment;
  draws : nat;
  reads : nat
}.

Definition with_jobs (js : list Job) (st : State) : State :=
  mkState js (providers st) (payments st) (draws st) (reads st).
Definition with_providers (ps : list Provider) (st : State) : State :=
  mkState (jobs st) ps (payments st) (draws st) (reads st).
Definition with_payments (ps : list Payment) (st : State) : State :=
  mkState (jobs st) (providers st) ps (draws st) (reads st).

(** The first millisecond of the year 10000: [new Date()] reads a clock
    set between 1970 and then, where [TIMESTAMP] and [toISOString] agree. *)
Definition date_limit : Z := 253402300800000.

(** What the outside world supplies: the clock (its [n]-th reading), the
    [uuidv4] generator (its [n]-th draw), the outcome of
    [Math.random() < 0.95], whether [STRIPE_SECRET_KEY] is set, and
    whether the Stripe API call succeeds. *)
Record Env := mkEnv {
  now : nat -> Date;
  now_range : forall n, 0 <= now n < date_limit;
  uuid : nat -> Uuid;
  random_ok : bool;
  stripe_configured : bool;
  stripe_ok : bool
}.

(** ** One operation: a synchronous computation or one SQL statement. It
    reads the environment, threads the database, and may raise an error. *)
Definition M (A : Type) : Type := Env -> State -> (A + string) * State.

Definition new_Date : M Date :=
  fun env st =>
    (inl (now env (reads st)),
     mkState (jobs st) (providers st) (payments st) (draws st) (S (reads st))).

Definition uuidv4 : M string :=
  fun env st =>
    (inl (uuid_text (uuid env (draws st))),
     mkState (jobs st) (providers st) (payments st) (S (draws st)) (reads st)).

Definition ask : M Env := fun env st => (inl env, st).

(** ** [async] code. [Sync op k] runs [op] and goes on; [Step op k] is an
    [await] on the SQL statement [op]: the statement runs (the client has
    a single connection, so statements run in the order they are sent)
    and the function is suspended, letting other requests and ticks run
    before [k] resumes with the outcome. *)
Inductive Prog (A : Type) : Type :=
| Done (a : A)
| Fail (e : string)
| Sync (B : Type) (op : M B) (k : B + string -> Prog A)
| Step (B : Type) (op : M B) (k : B + string -> Prog A).

Arguments Done {A} a.
Arguments Fail {A} e.
Arguments Sync {A B} op k.
Arguments Step {A B} op k.

(** Running a program alone, to its end. *)
Fixpoint run {A} (p : Prog A) (env : Env) (st : State) : (A + string) * State :=
  match p with
  | Done a => (inl a, st)
  | Fail e => (inr e, st)
  | Sync op k => let (r, st') := op env st in run (k r) env st'
  | Step op k => let (r, st') := op env st in run (k r) env st'
  end.

Coercion run : Prog >-> Funclass.

Definition ret {A} (a : A) : Prog A := Done a.
Definition throw {A} (e : string) : Prog A := Fail e.

Definition of_result {A} (r : A + string) : Prog A :=
  match r with inl a => Done a | inr e => Fail e end.

Fixpoint bind {A B} (p : Prog A) (f : A -> Prog B) : Prog B :=
  match p with
  | Done a => f a
  | Fail e => Fail e
  | Sync op k => Sync op (fun r => bind (k r) f)
  | Step op k => Step op (fun r => bind (k r) f)
  end.

(** [try { p } catch (error) { h }] *)
Fixpoint catch {A} (p : Prog A) (h : string -> Prog A) : Prog A :=
  match p with
  | Done a => Done a
  | Fail e => h e
  | Sync op k => Sync op (fun r => catch (k r) h)
  | Step op k => Step op (fun r => catch (k r) h)
  end.

Definition sync {A} (op : M A) : Prog A := Sync op of_result.
Definition await {A} (op : M A) : Prog A := Step op of_result.

(** A pure [A + string] result ([inr] is a [throw]). *)
Definition of_sum {A} (r : A + string) : Prog A := of_result r.

Notation "x <- p ;; k" := (bind p (fun x => k))
  (at level 61, p at next level, right associativity).
Notation "p ;;; k" := (bind p (fun _ => k))
  (at level 61, right associativity).

(** ** SQL statements on the tables

    A parameter bound to a [uuid] column must be read by [pg_uuid], a
    [VARCHAR(n)] value must fit, a [TEXT], [VARCHAR] or [JSONB] value
    holds no NUL character, a [NUMERIC(10,2)] value must fit; otherwise
    the statement raises and changes nothing. *)
Definition uuid_param {A} (s : string) (k : Uuid -> M A) : M A :=
  fun env st =>
    match pg_uuid s with
    | Some u => k u env st
    | None => (inr "invalid input syntax for type uuid"%string, st)
    end.

Definition numeric_param {A} (x : num) (k : numeric -> M A) : M A :=
  fun env st =>
    match to_numeric x with
    | inl v => k v env st
    | inr e => (inr e, st)
    end.

Definition text_ok (s : string) : bool :=
  negb (existsb (fun c => Ascii.eqb c Ascii.zero) (list_ascii_of_string s)).

(** [VARCHAR(n)] input: a longer string is an error unless the excess
    is all spaces, which are cut off. *)
Definition varchar_in (n : nat) (s : string) : option string :=
  if negb (text_ok s) then None
  else if Nat.leb (String.length s) n then Some s
  else if forallb (fun c => Ascii.eqb c " ") (list_ascii_of_string (substring n (String.length s - n) s))
  then Some (substring 0 n s)
  else None.

Definition find_job_u (u : Uuid) (js : list Job) : option Job :=
  find (fun j => uuid_eqb (id j) u) js.

(** [db.select().from(jobs).where(eq(jobs.id, jobId))], first row; none
    when [jobId] is not a UUID (the statement then raises). *)
Definition find_job (jobId : string) (js : list Job) : option Job :=
  match pg_uuid jobId with Some u => find_job_u u js | None => None end.

Definition select_job (jobId : string) : M (option Job) :=
  uuid_param jobId (fun u _ st => (inl (find_job_u u (jobs st)), st)).

(** [db.update(jobs).set(...).where(eq(jobs.id, u))]: every row with
    that id. *)
Definition update_job (u : Uuid) (f : Job -> Job) (js : list Job) : list Job :=
  map (fun j => if uuid_eqb (id j) u then f j else j) js.

(** [.set({ providerId, status: 'assigned', startedAt })] *)
Definition set_assigned (p : Uuid) (t : Date) (j : Job) : Job :=
  mkJob (id j) (userId j) (Some p) (dockerImage j) (command j) Assigned
    (createdAt j) (Some t) (finishedAt j) (cost j).

(** [.set({ status: 'running', startedAt })] *)
Definition set_running (t : Date) (j : Job) : Job :=
  mkJob (id j) (userId j) (providerId j) (dockerImage j) (command j) Running
    (createdAt j) (Some t) (finishedAt j) (cost j).

(** [.set({ status, finishedAt, cost })] *)
Definition set_finished (s : JobStatus) (t : Date) (c : numeric) (j : Job) : Job :=
  mkJob (id j) (userId j) (providerId j) (dockerImage j) (command j) s
    (createdAt j) (startedAt j) (Some t) c.

Definition update_assign (jobId pid : string) (t : Date) : M unit :=
  uuid_param pid (fun p =>
  uuid_param jobId (fun u _ st =>
    (inl tt, with_jobs (update_job u (set_assigned p t) (jobs st)) st))).

Definition update_running (jobId : string) (t : Date) : M unit :=
  uuid_param jobId (fun u _ st =>
    (inl tt, with_jobs (update_job u (set_running t) (jobs st)) st)).

Definition update_finished (jobId : string) (s : JobStatus) (t : Date) (c : num)
  : M unit :=
  numeric_param c (fun v =>
  uuid_param jobId (fun u _ st =>
    (inl tt, with_jobs (update_job u (set_finished s t v) (jobs st)) st))).

(** [db.insert(jobs).values({ id, userId, dockerImage, command, status:
    'queued', createdAt, cost: "0.00" })]; [id] is the primary key. *)
Definition insert_job (jobId uid img : string) (cmd : option string) (t : Date)
  : M unit :=
  uuid_param jobId (fun u =>
  uuid_param uid (fun v _ st =>
    match varchar_in 255 img with
    | None => (inr "value too long for type character varying(255)"%string, st)
    | Some img' =>
        if negb (match cmd with Some c => text_ok c | None => true end)
        then (inr "invalid byte sequence for encoding UTF8: 0x00"%string, st)
        else if existsb (fun j => uuid_eqb (id j) u) (jobs st)
        then (inr "duplicate key value violates unique constraint"%string, st)
        else (inl tt, with_jobs (jobs st ++
                [mkJob u v None (Some img') cmd Queued t None None (NumCents 0)]) st)
    end)).

(** [.orderBy(jobs.createdAt).limit(1)] over the queued rows: the first
    row of least [createdAt] (ties kept in table order). *)
Fixpoint oldest (best : Job) (js : list Job) : Job :=
  match js with
  | [] => best
  | j :: rest => oldest (if createdAt j <? createdAt best then j else best) rest
  end.

Definition first_oldest (js : list Job) : option Job :=
  match js with
  | [] => None
  | j :: rest => Some (oldest j rest)
  end.

Definition is_queued (j : Job) : bool := JobStatus_eqb (status j) Queued.

Definition select_next_queued : M (option Job) :=
  fun _ st => (inl (first_oldest (filter is_queued (jobs st))), st).

Definition select_queued : M (list Job) :=
  fun _ st => (inl (filter is_queued (jobs st)), st).

(** [.orderBy(desc(jobs.createdAt))]: an insertion sort (SQL leaves the
    order of equal timestamps unspecified). *)
Fixpoint insert_desc (j : Job) (js : list Job) : list Job :=
  match js with
  | [] => [j]
  | k :: rest =>
      if createdAt k <? createdAt j then j :: k :: rest
      else k :: insert_desc j rest
  end.

Definition sort_desc (js : list Job) : list Job :=
  fold_right insert_desc [] js.

(** A [status ? ... : ...] filter: only a non-empty string filters. *)
Definition status_filter (sf : option string) (j : Job) : bool :=
  match sf with
  | None | Some EmptyString => true
  | Some s => String.eqb (status_str (status j)) s
  end.

(** [.limit(limit)]: the driver sends an integer up to [2^63 - 1]; a
    negative limit leaves the clause out (drizzle-orm adds it only for
    [limit >= 0]). *)
Definition with_limit {A} (limit : Z) (k : (list Job -> list Job) -> M A) : M A :=
  fun env st =>
    if 2 ^ 63 <=? limit then (inr "bigint out of range"%string, st)
    else k (fun l => if 0 <=? limit then firstn (Z.to_nat limit) l else l) env st.

Definition status_param {A} (sf : option string) (k : M A) : M A :=
  fun env st =>
    match sf with
    | Some s => if text_ok s then k env st
                else (inr "invalid byte sequence for encoding UTF8: 0x00"%string, st)
    | None => k env st
    end.

Definition select_jobs_for_user (uid : string) (limit : Z) (sf : option string)
  : M (list Job) :=
  uuid_param uid (fun v => status_param sf (with_limit limit (fun lim _ st =>
    (inl (lim (sort_desc (filter (fun j => uuid_eqb (userId j) v && status_filter sf j)
                            (jobs st)))), st)))).

Definition select_all_jobs (limit : Z) (sf : option string) : M (list Job) :=
  status_param sf (with_limit limit (fun lim _ st =>
    (inl (lim (sort_desc (filter (status_filter sf) (jobs st)))), st))).

(** [eq(jobs.providerId, providerId)] is not true on a NULL column. *)
Definition select_jobs_of_provider (pid : string) : M (list Job) :=
  uuid_param pid (fun p _ st =>
    (inl (filter (fun j => match providerId j with
                           | Some q => uuid_eqb q p
                           | None => false
                           end) (jobs st)), st)).

Definition find_provider_u (u : Uuid) (ps : list Provider) : option Provider :=
  find (fun p => uuid_eqb (p_id p) u) ps.

Definition find_provider (pid : string) (ps : list Provider) : option Provider :=
  match pg_uuid pid with Some u => find_provider_u u ps | None => None end.

Definition select_provider (pid : string) : M (option Provider) :=
  uuid_param pid (fun u _ st => (inl (find_provider_u u (providers st)), st)).

Definition set_provider (u : Uuid) (f : Provider -> Provider) (ps : list Provider)
  : list Provider :=
  map (fun p => if uuid_eqb (p_id p) u then f p else p) ps.

Definition with_status (s : ProviderStatus) (p : Provider) : Provider :=
  mkProvider (p_id p) (p_ownerId p) s (p_gpuSpecs p) (p_createdAt p).

(** [db.update(providers).set({ status }).where(eq(providers.id, pid))] *)
Definition update_provider_status (pid : string) (s : ProviderStatus) : M unit :=
  uuid_param pid (fun u _ st =>
    (inl tt, with_providers (set_provider u (with_status s) (providers st)) st)).

(** [.set({ status: 'online', gpuSpecs })] *)
Definition update_provider_online (pid g : string) : M unit :=
  uuid_param pid (fun u _ st =>
    if text_ok g then
      (inl tt, with_providers
                 (set_provider u (fun p => mkProvider (p_id p) (p_ownerId p) POnline g
                                             (p_createdAt p)) (providers st)) st)
    else (inr "unsupported Unicode escape sequence"%string, st)).

Definition insert_provider (pid : string) (owner : option string) (g : string) (t : Date)
  : M unit :=
  uuid_param pid (fun u env st =>
    let ins (o : option Uuid) :=
      if negb (text_ok g) then (inr "unsupported Unicode escape sequence"%string, st)
      else if existsb (fun p => uuid_eqb (p_id p) u) (providers st)
      then (inr "duplicate key value violates unique constraint"%string, st)
      else (inl tt, with_providers (providers st ++ [mkProvider u o POnline g t]) st) in
    match owner with
    | Some o => uuid_param o (fun ou _ _ => ins (Some ou)) env st
    | None => ins None
    end).

Definition online_providers (ps : list Provider) : list Provider :=
  filter (fun p => ProviderStatus_eqb (p_status p) POnline) ps.

Definition select_online_providers : M (list Provider) :=
  fun _ st => (inl (online_providers (providers st)), st).

Definition insert_payment (paymentId jobId : string) (amount : num) (s : PaymentStatus)
  (t : Date) : M unit :=
  uuid_param paymentId (fun u =>
  uuid_param jobId (fun j =>
  numeric_param amount (fun v _ st =>
    if existsb (fun p => uuid_eqb (pay_id p) u) (payments st)
    then (inr "duplicate key value violates unique constraint"%string, st)
    else (inl tt, with_payments (payments st ++ [mkPayment u j v s t]) st)))).

(** [stripe.paymentIntents.create(...)]: succeeds or throws, as the
    environment decides. *)
Definition paymentIntents_create : M unit :=
  fun env st => if stripe_ok env then (inl tt, st)
                else (inr "Stripe API error"%string, st).

(** ** Job queue (scheduling/job-queue.ts) *)
Module JobQueue.

(** [dbJobToJob]: the row as the driver returns it ([uuid] columns as
    their text), with [dockerImage || ''] and
    [cost ? parseFloat(cost) : 0] (the column text is never empty). *)
Definition dbJobToJob (j : Job) : JobObj :=
  mkJobObj (uuid_text (id j)) (uuid_text (userId j))
    (option_map uuid_text (providerId j))
    (match dockerImage j with Some s => s | None => EmptyString end)
    (command j) (status j) (createdAt j) (startedAt j) (finishedAt j)
    (numeric_value (cost j)).

(** [command || null], and [command || undefined] *)
Definition or_null (c : option string) : option string :=
  match c with Some EmptyString => None | _ => c end.

(** [createJob(userId, dockerImage, command)]: the object it returns is
    built from the arguments and a second [new Date()]. *)
Definition createJob (userId : string) (dockerImage : string)
  (command : option string) : Prog JobObj :=
  jobId <- sync uuidv4 ;;
  t <- sync new_Date ;;
  await (insert_job jobId userId dockerImage (or_null command) t) ;;;
  t' <- sync new_Date ;;
  ret (mkJobObj jobId userId None dockerImage command Queued t' None None zero).

(** [getNextJob()] *)
Definition getNextJob : Prog (option JobObj) :=
  queuedJob <- await select_next_queued ;;
  ret (option_map dbJobToJob queuedJob).

(** [assignJob(jobId, providerId)]: the update, then the re-read. *)
Definition assignJob (jobId providerId : string) : Prog (option JobObj) :=
  t <- sync new_Date ;;
  await (update_assign jobId providerId t) ;;;
  updatedJob <- await (select_job jobId) ;;
  ret (option_map dbJobToJob updatedJob).

Definition markJobRunning (jobId : string) : Prog (option JobObj) :=
  t <- sync new_Date ;;
  await (update_running jobId t) ;;;
  updatedJob <- await (select_job jobId) ;;
  ret (option_map dbJobToJob updatedJob).

Definition markJobCompleted (jobId : string) (cost : num) : Prog (option JobObj) :=
  t <- sync new_Date ;;
  await (update_finished jobId Completed t cost) ;;;
  updatedJob <- await (select_job jobId) ;;
  ret (option_map dbJobToJob updatedJob).

Definition markJobFailed (jobId : string) (cost : num) : Prog (option JobObj) :=
  t <- sync new_Date ;;
  await (update_finished jobId Failed t cost) ;;;
  updatedJob <- await (select_job jobId) ;;
  ret (option_map dbJobToJob updatedJob).

Definition getJob (jobId : string) : Prog (option JobObj) :=
  result <- await (select_job jobId) ;;
  ret (option_map dbJobToJob result).

Definition listJobsForUser (userId : string) (limit : Z) (status : option string)
  : Prog (list JobObj) :=
  dbJobs <- await (select_jobs_for_user userId limit status) ;;
  ret (map dbJobToJob dbJobs).

Definition listAllJobs (limit : Z) (status : option string) : Prog (list JobObj) :=
  dbJobs <- await (select_all_jobs limit status) ;;
  ret (map dbJobToJob dbJobs).

Definition countQueuedJobs : Prog nat :=
  result <- await select_queued ;;
  ret (List.length result).

Definition getProviderJobs (providerId : string) : Prog (list JobObj) :=
  dbJobs <- await (select_jobs_of_provider providerId) ;;
  ret (map dbJobToJob dbJobs).

End JobQueue.

Import JobQueue.

(** ** Stripe charge (payment/stripe-connector.ts) *)
Module StripeCharge.

Record PaymentResult := mkPaymentResult {
  success : bool;
  paymentId : option string;
  error : option string;
  amount : num
}.

(** [simulatePayment(jobId, amount)]: [Math.random() < 0.95] is
    [random_ok]. *)
Definition simulatePayment (jobId : string) (amount : num) : Prog PaymentResult :=
  env <- sync ask ;;
  let success := random_ok env in
  paymentId <- sync uuidv4 ;;
  t <- sync new_Date ;;
  await (insert_payment paymentId jobId amount
           (if success then PaySucceeded else PayFailed) t) ;;;
  if success then ret (mkPaymentResult true (Some paymentId) None amount)
  else ret (mkPaymentResult false (Some paymentId)
              (Some "Simulated payment failure"%string) amount).

(** [chargeForJob(jobId, userId, amount, description)] *)
Definition chargeForJob (jobId userId : string) (amount : num) (description : string)
  : Prog PaymentResult :=
  env <- sync ask ;;
  if negb (stripe_configured env) then simulatePayment jobId amount
  else
    catch
      (await paymentIntents_create ;;;
       paymentId <- sync uuidv4 ;;
       t <- sync new_Date ;;
       await (insert_payment paymentId jobId amount PayPending t) ;;;
       ret (mkPaymentResult true (Some paymentId) None amount))
      (fun err =>
         paymentId <- sync uuidv4 ;;
         t <- sync new_Date ;;
         await (insert_payment paymentId jobId amount PayFailed t) ;;;
         ret (mkPaymentResult false (Some paymentId) (Some err) amount)).

End StripeCharge.

Import StripeCharge.

(** ** The Express handlers (orchestrator/src/index.ts) and the job
    runner's tick (scheduling/job-runner.ts) *)
Module Orchestrator.

Inductive Body :=
| BError (msg : string)
| BErrorNoJob (msg : string)
| BNoJob
| BJob (j : JobObj)
| BJobs (js : list JobObj)
| BAssigned (j : JobObj) (cfg : ContainerConfig)
| BSuccess
| BRegistered (providerId : string) (how : string).

Record Response := resp { code : Z; body : Body }.

(** JavaScript truthiness of an optional string ([undefined] is [None]). *)
Definition truthy (o : option string) : bool :=
  match o with Some (String _ _) => true | _ => false end.

(** Truthiness of a number: false on [0], [-0] and [NaN]. *)
Definition truthy_num (x : num) : bool :=
  match x with S754_zero _ | S754_nan => false | _ => true end.

(** [/^[0-9a-f]{8}-[0-9a-f]{4}-[0-9a-f]{4}-[0-9a-f]{4}-[0-9a-f]{12}$/i] *)
Definition uuidPattern : re :=
  Cat (Rep 8 (Chr hex_i)) (Cat (Lit "-")
  (Cat (Rep 4 (Chr hex_i)) (Cat (Lit "-")
  (Cat (Rep 4 (Chr hex_i)) (Cat (Lit "-")
  (Cat (Rep 4 (Chr hex_i)) (Cat (Lit "-")
  (Rep 12 (Chr hex_i))))))))).

Definition isValidUUID (s : string) : bool :=
  matchb uuidPattern (list_ascii_of_string s).

(** [POST /providers/register]; [gpuSpecs] is the JSON text of the
    value sent. *)
Definition post_providers_register (providerId ownerId gpuSpecs : option string)
  : Prog Response :=
  catch
    (match gpuSpecs with
     | None | Some EmptyString => ret (resp 400 (BError "GPU specs are required"))
     | Some g =>
         existingProvider <-
           (match providerId with
            | Some pid => if truthy providerId then await (select_provider pid)
                          else ret None
            | None => ret None
            end) ;;
         match existingProvider, providerId with
         | Some _, Some pid =>
             await (update_provider_online pid g) ;;;
             ret (resp 200 (BRegistered pid "updated"))
         | _, _ =>
             newProviderId <-
               (match providerId with
                | Some pid => if truthy providerId then ret pid else sync uuidv4
                | None => sync uuidv4
                end) ;;
             t <- sync new_Date ;;
             await (insert_provider newProviderId
                      (if truthy ownerId then ownerId else None) g t) ;;;
             ret (resp 200 (BRegistered newProviderId "created"))
         end
     end)
    (fun _ => ret (resp 500 (BError "Failed to register provider"))).

(** [POST /jobs/assign] *)
Definition post_jobs_assign (providerId : option string) : Prog Response :=
  catch
    (match providerId with
     | None | Some EmptyString =>
         ret (resp 400 (BError "Provider ID is required"))
     | Some pid =>
         providerData <- await (select_provider pid) ;;
         match providerData with
         | Some pr =>
           if negb (ProviderStatus_eqb (p_status pr) POnline)
           then ret (resp 400 (BErrorNoJob "Provider not found or not available"))
           else
             nextJob <- getNextJob ;;
             match nextJob with
             | None => ret (resp 200 BNoJob)
             | Some nj =>
                 assignedJob <- assignJob (o_id nj) pid ;;
                 match assignedJob with
                 | None => ret (resp 500 (BError "Failed to assign job"))
                 | Some aj =>
                     containerConfig <-
                       of_sum (generateContainerConfig
                         (mkContainerConfig (o_dockerImage aj) (or_null (o_command aj))
                            (Some true) None None)) ;;
                     await (update_provider_status pid PBusy) ;;;
                     ret (resp 200 (BAssigned aj containerConfig))
                 end
             end
         | None => ret (resp 400 (BErrorNoJob "Provider not found or not available"))
         end
     end)
    (fun _ => ret (resp 500 (BError "Failed to assign job"))).

(** [Math.round(x * 100) / 100] *)
Definition round_cents (x : num) : num :=
  div (math_round (mul x (of_Z 100))) (of_Z 100).

(** [case 'completed']: the cost from the reported [executionTime]
    (minutes) if truthy, else from [job.startedAt] to [new Date()] (read
    only on that path), then rounded to cents. *)
Definition completed_cost (executionTime : option num) (job : JobObj) : Prog num :=
  let from_start :=
    match o_startedAt job with
    | Some sa => t <- sync new_Date ;; ret (calculateJobCost sa t)
    | None => ret zero
    end in
  cost <-
    (match executionTime with
     | Some et => if truthy_num et then ret (mul et getComputeRate) else from_start
     | None => from_start
     end) ;;
  ret (round_cents cost).

(** [case 'failed']: half the wall-clock cost, rounded to cents. *)
Definition failed_cost (job : JobObj) : Prog num :=
  match o_startedAt job with
  | Some sa =>
      t <- sync new_Date ;;
      ret (round_cents (mul (calculateJobCost sa t) lit_0_5))
  | None => ret zero
  end.

(** The [switch (status)] of [POST /jobs/report], once the job [job]
    has been read and its provider checked. *)
Definition report_switch (jid pid s : string) (executionTime : option num)
  (job : JobObj) : Prog Response :=
  if String.eqb s "running" then
    markJobRunning jid ;;; ret (resp 200 BSuccess)
  else if String.eqb s "completed" then
    cost <- completed_cost executionTime job ;;
    markJobCompleted jid cost ;;;
    (if gtb cost zero then
       chargeForJob jid (o_userId job) cost
         ("ComputeFabric: GPU compute job " ++ jid) ;;; ret tt
     else ret tt) ;;;
    await (update_provider_status pid POnline) ;;;
    ret (resp 200 BSuccess)
  else if String.eqb s "failed" then
    partialCost <- failed_cost job ;;
    markJobFailed jid partialCost ;;;
    (if gtb partialCost zero then
       chargeForJob jid (o_userId job) partialCost
         ("ComputeFabric: Partial charge for failed job " ++ jid) ;;; ret tt
     else ret tt) ;;;
    await (update_provider_status pid POnline) ;;;
    ret (resp 200 BSuccess)
  else ret (resp 400 (BError "Invalid status")).

(** [POST /jobs/report]; [executionTime] is the optional number sent by
    the provider. *)
Definition post_jobs_report (jobId providerId status : option string)
  (executionTime : option num) : Prog Response :=
  catch
    (match jobId, providerId, status with
     | Some jid, Some pid, Some s =>
       if negb (truthy jobId && truthy providerId && truthy status)
       then ret (resp 400 (BError "Job ID, Provider ID, and status are required"))
       else
         job <- getJob jid ;;
         match job with
         | None => ret (resp 404 (BError "Job not found"))
         | Some job =>
           if match o_providerId job with
              | Some jp => String.eqb jp pid
              | None => false            (* null !== providerId *)
              end
           then report_switch jid pid s executionTime job
           else ret (resp 403 (BError "This job is not assigned to this provider"))
         end
     | _, _, _ => ret (resp 400 (BError "Job ID, Provider ID, and status are required"))
     end)
    (fun _ => ret (resp 500 (BError "Failed to update job status"))).

(** [POST /jobs] *)
Definition post_jobs (userId0 dockerImage0 command0 : option string) : Prog Response :=
  catch
    (match userId0, dockerImage0 with
     | Some u, Some img =>
       if negb (truthy userId0 && truthy dockerImage0)
       then ret (resp 400 (BError "User ID and Docker image are required"))
       else
         userIdToUse <- (if isValidUUID u then ret u else sync uuidv4) ;;
         if negb (validateImageName img)
         then ret (resp 400 (BError "Invalid Docker image name"))
         else
           job <- createJob userIdToUse img command0 ;;
           ret (resp 201 (BJob job))
     | _, _ => ret (resp 400 (BError "User ID and Docker image are required"))
     end)
    (fun _ => ret (resp 500 (BError "Failed to create job"))).

(** [GET /jobs/:id] *)
Definition get_job (jobId : string) : Prog Response :=
  catch
    (match jobId with
     | EmptyString => ret (resp 400 (BError "Job ID is required"))
     | _ =>
       job <- getJob jobId ;;
       match job with
       | None => ret (resp 404 (BError "Job not found"))
       | Some j => ret (resp 200 (BJob j))
       end
     end)
    (fun _ => ret (resp 500 (BError "Failed to get job"))).

(** [GET /jobs?userId=&status=&limit=]; [limit] is the parsed
    [parseInt(req.query.limit || '20', 10)]. An absent [userId] is tested
    by the regex as the string ["undefined"]. *)
Definition get_jobs (userIdParam status : option string) (limit : Z)
  : Prog Response :=
  catch
    (let isValid :=
       isValidUUID (match userIdParam with Some u => u
                                          | None => "undefined"%string end) in
     if truthy userIdParam && negb isValid then ret (resp 200 (BJobs []))
     else
       match userIdParam with
       | Some u =>
         if truthy userIdParam then
           js <- listJobsForUser u limit status ;; ret (resp 200 (BJobs js))
         else
           js <- listAllJobs limit status ;; ret (resp 200 (BJobs js))
       | None => js <- listAllJobs limit status ;; ret (resp 200 (BJobs js))
       end)
    (fun _ => ret (resp 500 (BError "Failed to list jobs"))).

(** [JobRunner.processQueue()]: the loop over the available providers;
    [provider.id] is the text of the row's [uuid]. *)
Fixpoint assign_loop (ps : list Provider) : Prog unit :=
  match ps with
  | [] => ret tt
  | provider :: rest =>
      nextJob <- getNextJob ;;
      match nextJob with
      | None => ret tt
      | Some nj =>
          assignJob (o_id nj) (uuid_text (p_id provider)) ;;;
          await (update_provider_status (uuid_text (p_id provider)) PBusy) ;;;
          assign_loop rest
      end
  end.

Definition processQueue : Prog unit :=
  catch
    (queuedCount <- countQueuedJobs ;;
     if Nat.eqb queuedCount 0 then ret tt
     else
       availableProviders <- await select_online_providers ;;
       match availableProviders with
       | [] => ret tt
       | _ => assign_loop availableProviders
       end)
    (fun _ => ret tt).

End Orchestrator.

Import Orchestrator.

(** ** The orchestrator process: requests and ticks, interleaved

    A request to one of the Express handlers, or a tick of the job
    runner's [setInterval]. *)
Inductive Request : Type :=
| RegisterProvider (providerId ownerId gpuSpecs : option string)
| AssignJob (providerId : option string)
| ReportJob (jobId providerId status : option string) (executionTime : option num)
| CreateJob (userId dockerImage command : option string)
| GetJob (jobId : string)
| ListJobs (userId status : option string) (limit : Z)
| Tick.

Definition handle (r : Request) : Prog (option Response) :=
  match r with
  | RegisterProvider pid owner gpu =>
      x <- post_providers_register pid owner gpu ;; ret (Some x)
  | AssignJob pid => x <- post_jobs_assign pid ;; ret (Some x)
  | ReportJob jid pid s et => x <- post_jobs_report jid pid s et ;; ret (Some x)
  | CreateJob u img cmd => x <- post_jobs u img cmd ;; ret (Some x)
  | GetJob jid => x <- get_job jid ;; ret (Some x)
  | ListJobs u s limit => x <- get_jobs u s limit ;; ret (Some x)
  | Tick => processQueue ;;; ret None
  end.

(** A suspended function resumes: it runs up to and including its next
    [await]ed statement, or to its end. *)
Fixpoint exec_seg {A} (p : Prog A) (env : Env) (st : State) : Prog A * State :=
  match p with
  | Done a => (Done a, st)
  | Fail e => (Fail e, st)
  | Sync op k => let (r, st') := op env st in exec_seg (k r) env st'
  | Step op k => let (r, st') := op env st in (k r, st')
  end.

Fixpoint replace_nth {T} (n : nat) (x : T) (l : list T) : list T :=
  match n, l with
  | _, [] => []
  | O, _ :: rest => x :: rest
  | S k, y :: rest => y :: replace_nth k x rest
  end.

(** The [i]-th of the pending functions resumes. *)
Definition exec_thread {A} (i : nat) (ths : list (Env * Prog A)) (st : State)
  : list (Env * Prog A) * State :=
  match nth_error ths i with
  | Some (env, p) =>
      let (p', st') := exec_seg p env st in (replace_nth i (env, p') ths, st')
  | None => (ths, st)
  end.

(** Resume functions in the order of [sched]. *)
Fixpoint run_sched {A} (sched : list nat) (ths : list (Env * Prog A)) (st : State)
  : list (Env * Prog A) * State :=
  match sched with
  | [] => (ths, st)
  | i :: rest => let (ths', st') := exec_thread i ths st in run_sched rest ths' st'
  end.

(** The process: the database and the handlers and ticks started so far,
    each with the environment it runs in (a finished one is left as
    [Done] or [Fail]). *)
Record Conf := mkConf {
  c_state : State;
  c_threads : list (Env * Prog (option Response))
}.

Inductive Action :=
| Arrive (r : Request) (env : Env)
| Exec (i : nat).

Definition cact (a : Action) (c : Conf) : Conf :=
  match a with
  | Arrive r env => mkConf (c_state c) (c_threads c ++ [(env, handle r)])
  | Exec i =>
      let (ths, st) := exec_thread i (c_threads c) (c_state c) in mkConf st ths
  end.

Definition state0 : State := mkState [] [] [] 0 0.
Definition conf0 : Conf := mkConf state0 [].

(** The configurations reached from the empty database, with requests
    and ticks arriving at any time and interleaving at their [await]s,
    each under any clock, UUID draws and payment outcomes. *)
Inductive creach : Conf -> Prop :=
| creach_init : creach conf0
| creach_step (a : Action) (c : Conf) : creach c -> creach (cact a c).

(** The claim of [POST /jobs/assign] and of the runner's loop: the oldest
    queued job is read, then assigned to [providerId]; the result is the
    job read. *)
Definition claim (providerId : string) : Prog (option JobObj) :=
  nextJob <- getNextJob ;;
  match nextJob with
  | None => ret None
  | Some nj => assignJob (o_id nj) providerId ;;; ret (Some nj)
  end.

(** Claims that run one after the other. *)
Fixpoint claim_serial (ps : list string) : Prog (list (option JobObj)) :=
  match ps with
  | [] => ret []
  | p :: rest => r <- claim p ;; rs <- claim_serial rest ;; ret (r :: rs)
  end.

Definition claimed_ids (rs : list (option JobObj)) : list string :=
  flat_map (fun r => match r with Some j => [o_id j] | None => [] end) rs.

Definition queued_ids (js : list Job) : list string :=
  map (fun j => uuid_text (id j)) (filter is_queued js).

(** ** The job runner's timer and the Docker run line *)
(** The two private fields of a [JobRunner]. *)
Record JobRunner := mkJobRunner {
  pollingInterval : option nat;
  isRunning : bool
}.

(** Node's table of active [setInterval] timers (handle, period in ms),
    and the next handle it gives out. *)
Record Timers := mkTimers {
  active : list (nat * Z);
  next_timer : nat
}.

Definition setInterval (ms : Z) (tm : Timers) : nat * Timers :=
  (next_timer tm, mkTimers (active tm ++ [(next_timer tm, ms)]) (S (next_timer tm))).

Definition clearInterval (h : nat) (tm : Timers) : Timers :=
  mkTimers (filter (fun e => negb (Nat.eqb (fst e) h)) (active tm)) (next_timer tm).

(** [start(intervalMs)]: the immediate [this.processQueue()] is not awaited;
    its effect on the database is a [processQueue] run, as for a tick. *)
Definition start (intervalMs : Z) (r : JobRunner) (tm : Timers) : JobRunner * Timers :=
  if isRunning r then (r, tm)
  else
    let (h, tm') := setInterval intervalMs tm in
    (mkJobRunner (Some h) true, tm').

(** [stop()]: [!this.isRunning || !this.pollingInterval] returns early (a
    [Timeout] object is truthy). *)
Definition stop (r : JobRunner) (tm : Timers) : JobRunner * Timers :=
  match isRunning r, pollingInterval r with
  | true, Some h => (mkJobRunner None false, clearInterval h tm)
  | _, _ => (r, tm)
  end.

Inductive RunnerCall := CallStart (intervalMs : Z) | CallStop.

Definition runner_call (c : RunnerCall) (rt : JobRunner * Timers) : JobRunner * Timers :=
  match c with
  | CallStart ms => start ms (fst rt) (snd rt)
  | CallStop => stop (fst rt) (snd rt)
  end.

(** [jobRunner = new JobRunner()] in a process with no other timer. *)
Definition runner0 : JobRunner * Timers := (mkJobRunner None false, mkTimers [] 0).

Definition run_calls (cs : list RunnerCall) : JobRunner * Timers :=
  fold_left (fun rt c => runner_call c rt) cs runner0.

(** The double quote character. *)
Definition dq : string := String "034"%char EmptyString.

(** [`${n}`] for an integer-valued number. *)
Definition number_str (z : Z) : string := NilZero.string_of_int (Z.to_int z).

(** [`${x}`] for an optional field ([undefined] prints as such). *)
Definition opt_str (o : option string) : string :=
  match o with Some s => s | None => "undefined" end.
Definition opt_num_str (o : option Z) : string :=
  match o with Some z => number_str z | None => "undefined" end.

(** [getDockerRunCommand(config)]. [ContainerConfig] does not carry [env]
    and [volumes]: [env] is given as the list [Object.entries(config.env)]
    returns, [volumes] as the array ([None] is [undefined]). *)
Definition getDockerRunCommand (config : ContainerConfig)
  (env : option (list (string * string))) (volumes : option (list string)) : string :=
  let command := "docker run --rm"%string in
  let command := (command ++ " --memory=" ++ opt_str (cc_memoryLimit config))%string in
  let command := (command ++ " --cpus=" ++ opt_num_str (cc_cpuLimit config))%string in
  let command :=
    match cc_gpus config with
    | Some true => (command ++ " --gpus all")%string
    | _ => command
    end in
  let command :=
    match env with
    | Some ((_ :: _) as es) =>
        fold_left (fun c kv => (c ++ " -e " ++ fst kv ++ "=" ++ dq ++ snd kv ++ dq)%string)
          es command
    | _ => command
    end in
  let command :=
    match volumes with
    | Some ((_ :: _) as vs) => fold_left (fun c v => (c ++ " -v " ++ v)%string) vs command
    | _ => command
    end in
  let command := (command ++ " " ++ cc_image config)%string in
  match cc_command config with
  | Some ((String _ _) as c) => (command ++ " " ++ c)%string
  | _ => command
  end.

(** The strings [uuidPattern] describes: five groups of 8, 4, 4, 4 and 12
    hexadecimal digits of either case, joined by ["-"]. *)
Definition uuid_shape (l : list ascii) : Prop :=
  exists a b c d e,
    l = app a ("-"%char :: app b ("-"%char :: app c ("-"%char :: app d ("-"%char :: e)))) /\
    List.length a = 8%nat /\ List.length b = 4%nat /\ List.length c = 4%nat /\
    List.length d = 4%nat /\ List.length e = 12%nat /\
    Forall (fun x => hex_i x = true) (app a (app b (app c (app d e)))).

(** The number of queued rows, and the providers a tick finds available. *)
Definition count_queued (js : list Job) : nat := List.length (filter is_queued js).


(** The runner's state as [start] and [stop] keep it: stopped with no
    timer, or running with exactly the timer its handle names. *)
Definition runner_ok (rt : JobRunner * Timers) : Prop :=
  (fst rt = mkJobRunner None false /\ active (snd rt) = []) \/
  exists h ms, fst rt = mkJobRunner (Some h) true /\ active (snd rt) = [(h, ms)].

(** ** Concrete inputs *)

(** The clock clamped to the dates the code can store. *)
Definition clamp_date (t : Z) : Date := Z.max 0 (Z.min t (date_limit - 1)).

Definition clamp_date_range (t : Z) : 0 <= clamp_date t < date_limit.
Proof. unfold clamp_date, date_limit. lia. Qed.

Definition mk_env (clock : nat -> Z) (draw : nat -> Uuid) (ok configured api : bool)
  : Env :=
  mkEnv (fun n => clamp_date (clock n)) (fun n => clamp_date_range (clock n))
    draw ok configured api.

(** A [uuidv4] whose [n]-th draw ([n < 16]) is the version-4 UUID whose
    first digit is [n] and whose other digits are 0 (but for the version
    and variant digits). *)
Definition uuid_demo (n : nat) : Uuid :=
  mkUuid (byte_of (16 * n)) x00 x00 x00 x00 x00 x40 x00
    x80 x00 x00 x00 x00 x00 x00 x00.

(** A clock standing at [t], no Stripe key (the simulation path), and
    [Math.random() < 0.95]. *)
Definition env_at (t : Z) : Env := mk_env (fun _ => t) uuid_demo true false true.

(** The scenario of the spec: a job is submitted at t = 1000 ms (its id
    is draw 0), a provider registers at t = 2000 (draw 1), and the job
    runner's tick at t = 3000 assigns the job to it. *)
Definition demo_user : string := "11111111-1111-4111-8111-111111111111".
Definition demo_job : string := uuid_text (uuid_demo 0).
Definition demo_provider : string := uuid_text (uuid_demo 1).

Definition scen1 : State :=
  snd (post_jobs (Some demo_user) (Some "nvidia/cuda:11.7.1-base-ubuntu22.04"%string)
         None (env_at 1000) state0).
Definition scen2 : State :=
  snd (post_providers_register None None (Some "gpu"%string) (env_at 2000) scen1).
Definition scen3 : State := snd (processQueue (env_at 3000) scen2).

(** A second provider registers at t = 2500 (draw 2). *)
Definition demo_provider2 : string := uuid_text (uuid_demo 2).
Definition scen2b : State :=
  snd (post_providers_register None None (Some "gpu"%string) (env_at 2500) scen2).

Definition nil_uuid : Uuid :=
  mkUuid x00 x00 x00 x00 x00 x00 x00 x00 x00 x00 x00 x00 x00 x00 x00 x00.

(** The row of [jid], or a blank row. *)
Definition job_of (jid : string) (st : State) : Job :=
  match find_job jid (jobs st) with
  | Some j => j
  | None => mkJob nil_uuid nil_uuid None None None Queued 0 None None (NumCents 0)
  end.

(** Rows whose [user_id] prints as [u]. *)
Definition of_user (u : string) (j : Job) : bool := String.eqb (uuid_text (userId j)) u.

(** [assignedJob.dockerImage] as [dbJobToJob] returns it. *)
Definition image_of (j : Job) : string :=
  match dockerImage j with Some s => s | None => EmptyString end.

(** One queued row whose nullable [docker_image] column is NULL (a row
    written by another client of the database), and one online
    provider. *)
Definition st_null_image : State :=
  mkState
    [mkJob (uuid_demo 0) (uuid_demo 5) None None None Queued 1000 None None (NumCents 0)]
    [mkProvider (uuid_demo 1) None POnline "gpu" 500]
    [] 6 0.

(** Equality of binary64 values, [-0] and [0] told apart. *)
Definition num_eqb (x y : num) : bool :=
  match x, y with
  | S754_zero a, S754_zero b => Bool.eqb a b
  | S754_infinity a, S754_infinity b => Bool.eqb a b
  | S754_nan, S754_nan => true
  | S754_finite a m e, S754_finite b n f => Bool.eqb a b && Pos.eqb m n && Z.eqb e f
  | _, _ => false
  end.

(** The [n] integers from [lo]. *)
Definition zrange (lo : Z) (n : nat) : list Z := map (fun k => lo + Z.of_nat k) (seq 0 n).

(** [x < 0] as JavaScript evaluates it. *)
Definition ltb_zero (x : num) : bool :=
  match SFcompare x zero with Some Lt => true | _ => false end.

(** ** What the rows of the [jobs] table satisfy *)

Definition row_ok (j : Job) : Prop :=
  match status j with
  | Queued => providerId j = None /\ startedAt j = None /\
              finishedAt j = None /\ cost j = NumCents 0
  | Assigned | Running => providerId j <> None /\ startedAt j <> None
  | Completed | Failed =>
      providerId j <> None /\ startedAt j <> None /\ finishedAt j <> None
  end.

Definition store_inv (st : State) : Prop :=
  NoDup (map id (jobs st)) /\ Forall row_ok (jobs st).

(** What a step of one function guarantees the others: no row is
    removed or renamed, and a row that has a provider keeps one. *)
Definition guar (st st' : State) : Prop :=
  forall j, In j (jobs st) ->
    exists j', In j' (jobs st') /\ id j' = id j /\
               (providerId j <> None -> providerId j' <> None).

(** What a suspended function knows of the database and still holds
    whatever the others do. *)
Definition stable (K : State -> Prop) : Prop :=
  forall st st', K st -> guar st st' -> K st'.

(** [p], started where [K] holds, keeps [store_inv] and [guar] at each
    operation, and ends where [Q] holds of its result and knowledge. *)
Fixpoint safe {A} (K : State -> Prop) (p : Prog A) (Q : A -> (State -> Prop) -> Prop)
  : Prop :=
  match p with
  | Done a => Q a K
  | Fail _ => True
  | Sync op k | Step op k =>
      forall env st, store_inv st -> K st ->
        store_inv (snd (op env st)) /\ guar st (snd (op env st)) /\
        exists K', K' (snd (op env st)) /\ stable K' /\
                   safe K' (k (fst (op env st))) Q
  end.

(** The configuration invariant: the database satisfies [store_inv] and
    every function started knows something true and stable from which it
    runs safely. *)
Definition conf_inv (c : Conf) : Prop :=
  store_inv (c_state c) /\
  Forall (fun th => exists K, K (c_state c) /\ stable K /\
                              safe K (snd th) (fun _ _ => True)) (c_threads c).

(** The row [jid] names exists and has a provider. *)
Definition has_provider (jid : string) (st : State) : Prop :=
  exists j, In j (jobs st) /\ pg_uuid jid = Some (id j) /\ providerId j <> None.

(** Operations that leave the [jobs] table as it is. *)
Definition keeps_jobs {A} (op : M A) : Prop :=
  forall env st, jobs (snd (op env st)) = jobs st.

(** An operation run where [store_inv] and [P] hold keeps [store_inv]
    and [guar]. *)
Definition op_ok (P : State -> Prop) {A} (op : M A) : Prop :=
  forall env st, store_inv st -> P st ->
    store_inv (snd (op env st)) /\ guar st (snd (op env st)).

(** [p] runs safely from any stable knowledge that implies [P], and ends
    with stable knowledge that implies [P]. *)
Definition safe_under (P : State -> Prop) {A} (p : Prog A) : Prop :=
  forall K, stable K -> (forall s, K s -> P s) ->
    safe K p (fun _ K' => stable K' /\ forall s, K' s -> P s).

(** A request served alone, to its end, after the functions of [c]. *)
Definition serve (r : Request) (env : Env) (c : Conf) : Conf :=
  let (res, st) := handle r env (c_state c) in
  mkConf st (c_threads c ++ [(env, of_result res)]).

Definition run_acts (acts : list Action) (c : Conf) : Conf :=
  fold_left (fun c a => cact a c) acts c.

(** The scenario up to [scen2b], each request served alone. *)
Definition conf_2b : Conf :=
  serve (RegisterProvider None None (Some "gpu"%string)) (env_at 2500)
    (serve (RegisterProvider None None (Some "gpu"%string)) (env_at 2000)
      (serve (CreateJob (Some demo_user)
                (Some "nvidia/cuda:11.7.1-base-ubuntu22.04"%string) None)
         (env_at 1000) conf0)).

(** Both providers call [POST /jobs/assign] at t = 3000, and each reads
    the queued job before either writes. *)
Definition race_acts : list Action :=
  [Arrive (AssignJob (Some demo_provider)) (env_at 3000);
   Arrive (AssignJob (Some demo_provider2)) (env_at 3000);
   Exec 3; Exec 3; Exec 4; Exec 4; Exec 3; Exec 3; Exec 3; Exec 3;
   Exec 4; Exec 4; Exec 4; Exec 4].

Definition conf_race : Conf := run_acts race_acts conf_2b.

(** The first provider's [POST /jobs/assign] reads the queued job and is
    suspended; meanwhile the second provider is assigned the job and
    reports it completed with [executionTime = 10]; then the first
    resumes. *)
Definition stale_acts : list Action :=
  [Arrive (AssignJob (Some demo_provider)) (env_at 3000);
   Exec 3; Exec 3;
   Arrive (AssignJob (Some demo_provider2)) (env_at 3100);
   Exec 4; Exec 4; Exec 4; Exec 4; Exec 4; Exec 4;
   Arrive (ReportJob (Some demo_job) (Some demo_provider2) (Some "completed"%string)
             (Some (of_Z 10))) (env_at 4000);
   Exec 5; Exec 5; Exec 5; Exec 5; Exec 5; Exec 5; Exec 5; Exec 5; Exec 5; Exec 5;
   Exec 3; Exec 3; Exec 3; Exec 3; Exec 3].

Definition conf_stale : Conf := run_acts stale_acts conf_2b.

(** * Properties

    Proofs of the claims and further properties of the code. *)

(** ** The regular-expression matcher *)

Lemma inv_cat r s l :
  matches (Cat r s) l -> exists u v, l = u ++ v /\ matches r u /\ matches s v.
Proof. intros H. inversion H; subst. eauto. Qed.

Lemma inv_alt r s l : matches (Alt r s) l -> matches r l \/ matches s l.
Proof. intros H. inversion H; subst; auto. Qed.

Lemma inv_chr p l : matches (Chr p) l -> exists c, l = [c] /\ p c = true.
Proof. intros H. inversion H; subst. eauto. Qed.

Lemma inv_eps l : matches Eps l -> l = [].
Proof. intros H. inversion H; reflexivity. Qed.

Lemma inv_empty l : ~ matches Empty l.
Proof. intros H. inversion H. Qed.

Lemma inv_lit c l : matches (Lit c) l -> l = [c].
Proof.
  intros H. apply inv_chr in H. destruct H as (d & -> & E).
  apply Ascii.eqb_eq in E. subst. reflexivity.
Qed.

Lemma star_nonempty r l c w :
  matches (Star r) l -> l = c :: w ->
  exists u v, w = u ++ v /\ matches r (c :: u) /\ matches (Star r) v.
Proof.
  intros H. remember (Star r) as e eqn:Ee. revert c w.
  induction H; intros c0 w E; try discriminate; inversion Ee; subst.
  destruct u as [|d u]; cbn in E.
  - apply IHmatches2; auto.
  - inversion E; subst. exists u, v. auto.
Qed.

Lemma nullable_spec r : nullable r = true <-> matches r [].
Proof.
  induction r as [| |p|r IHr s IHs|r IHr s IHs|r IHr]; cbn; split.
  - discriminate.
  - intros H. inversion H.
  - constructor.
  - reflexivity.
  - discriminate.
  - intros H. apply inv_chr in H. destruct H as (c & E & _). discriminate.
  - intros H. apply andb_prop in H. destruct H as [H1 H2].
    change (@nil ascii) with (@nil ascii ++ @nil ascii).
    constructor; [apply IHr | apply IHs]; assumption.
  - intros H. apply inv_cat in H. destruct H as (u & v & E & Hu & Hv).
    symmetry in E. apply app_eq_nil in E. destruct E; subst.
    apply andb_true_intro. split; [apply IHr | apply IHs]; assumption.
  - intros H. apply orb_prop in H. destruct H as [H|H].
    + apply m_altl, IHr, H.
    + apply m_altr, IHs, H.
  - intros H. apply inv_alt in H. apply orb_true_intro.
    destruct H as [H|H]; [left; apply IHr | right; apply IHs]; exact H.
  - intros _. constructor.
  - reflexivity.
Qed.

Lemma deriv_spec c r w : matches (deriv c r) w <-> matches r (c :: w).
Proof.
  revert w.
  induction r as [| |p|r IHr s IHs|r IHr s IHs|r IHr]; intros w; cbn.
  - split; intros H; inversion H.
  - split; intros H; inversion H.
  - destruct (p c) eqn:Hp; split; intros H.
    + apply inv_eps in H. subst. constructor. exact Hp.
    + apply inv_chr in H. destruct H as (d & E & _). inversion E. constructor.
    + inversion H.
    + apply inv_chr in H. destruct H as (d & E & Hd). inversion E; subst.
      congruence.
  - split.
    + destruct (nullable r) eqn:Hn.
      * intros H. apply inv_alt in H. destruct H as [H|H].
        -- apply inv_cat in H. destruct H as (u & v & -> & Hu & Hv).
           change (c :: u ++ v) with ((c :: u) ++ v).
           constructor; [apply IHr|]; assumption.
        -- change (c :: w) with ([] ++ c :: w).
           constructor; [apply nullable_spec | apply IHs]; assumption.
      * intros H. apply inv_cat in H. destruct H as (u & v & -> & Hu & Hv).
        change (c :: u ++ v) with ((c :: u) ++ v).
        constructor; [apply IHr|]; assumption.
    + intros H. apply inv_cat in H. destruct H as (u & v & E & Hu & Hv).
      destruct u as [|d u]; cbn in E.
      * subst v. assert (Hn : nullable r = true) by (apply nullable_spec; exact Hu).
        rewrite Hn. apply m_altr, IHs, Hv.
      * injection E as Ed Ew. subst d w.
        assert (H' : matches (Cat (deriv c r) s) (u ++ v))
          by (constructor; [apply IHr|]; assumption).
        destruct (nullable r); [apply m_altl|]; exact H'.
  - split; intros H.
    + apply inv_alt in H. destruct H as [H|H];
        [apply m_altl, IHr | apply m_altr, IHs]; exact H.
    + apply inv_alt in H. destruct H as [H|H];
        [apply m_altl, IHr | apply m_altr, IHs]; exact H.
  - split; intros H.
    + apply inv_cat in H. destruct H as (u & v & -> & Hu & Hv).
      change (c :: u ++ v) with ((c :: u) ++ v).
      constructor; [apply IHr|]; assumption.
    + destruct (star_nonempty _ _ _ _ H eq_refl) as (u & v & -> & Hu & Hv).
      constructor; [apply IHr|]; assumption.
Qed.

Lemma matchb_spec r s : matchb r s = true <-> matches r s.
Proof.
  unfold matchb. revert r.
  induction s as [|c s IH]; intros r; cbn.
  - apply nullable_spec.
  - rewrite IH. apply deriv_spec.
Qed.

(** ** The language of [validImagePattern] *)

Lemma star_concat r l :
  matches (Star r) l <-> exists ls, Forall (matches r) ls /\ l = List.concat ls.
Proof.
  split.
  - intros H. remember (Star r) as e eqn:Ee.
    induction H; try discriminate; inversion Ee; subst.
    + exists []. split; [constructor | reflexivity].
    + destruct (IHmatches2 eq_refl) as (ls & Hls & ->).
      exists (u :: ls). split; [constructor; assumption | reflexivity].
  - intros (ls & Hls & ->). induction Hls as [|x ls Hx Hls IH]; cbn.
    + constructor.
    + constructor; assumption.
Qed.

Lemma star_chr p l :
  matches (Star (Chr p)) l <-> Forall (fun c => p c = true) l.
Proof.
  rewrite star_concat. split.
  - intros (ls & Hls & ->). induction Hls as [|x ls Hx Hls IH]; cbn.
    + constructor.
    + apply inv_chr in Hx. destruct Hx as (c & -> & Hc). constructor; assumption.
  - intros H. exists (map (fun c => [c]) l). split.
    + induction H as [|c l Hc H IH]; cbn; constructor; [constructor; exact Hc | exact IH].
    + clear H. induction l as [|c l IH]; cbn; [reflexivity | rewrite <- IH; reflexivity].
Qed.

Lemma plus_chr p l :
  matches (Plus (Chr p)) l <-> l <> [] /\ Forall (fun c => p c = true) l.
Proof.
  unfold Plus. split.
  - intros H. apply inv_cat in H. destruct H as (u & v & -> & Hu & Hv).
    apply inv_chr in Hu. destruct Hu as (c & -> & Hc). apply star_chr in Hv.
    split; [discriminate | constructor; assumption].
  - intros [Hne H]. destruct l as [|c l]; [contradiction|].
    inversion H; subst. change (c :: l) with ([c] ++ l).
    constructor; [constructor; assumption | apply star_chr; assumption].
Qed.

Lemma upto_chr n p l :
  matches (UpTo n (Chr p)) l <->
  (List.length l <= n)%nat /\ Forall (fun c => p c = true) l.
Proof.
  revert l. induction n as [|n IH]; intros l; cbn.
  - split.
    + intros H. apply inv_eps in H. subst. split; [cbn; lia | constructor].
    + intros [Hl _]. destruct l; [constructor | cbn in Hl; lia].
  - split.
    + intros H. apply inv_alt in H. destruct H as [H|H].
      * apply inv_eps in H. subst. split; [cbn; lia | constructor].
      * apply inv_cat in H. destruct H as (u & v & -> & Hu & Hv).
        apply inv_chr in Hu. destruct Hu as (c & -> & Hc).
        apply IH in Hv. destruct Hv as [Hl Hv]. cbn.
        split; [lia | constructor; assumption].
    + intros [Hl H]. destruct l as [|c l].
      * apply m_altl. constructor.
      * apply m_altr. inversion H; subst. cbn in Hl.
        change (c :: l) with ([c] ++ l).
        constructor; [constructor; assumption | apply IH; split; [lia | assumption]].
Qed.

Lemma slash_segment l :
  matches (Cat (Lit "/") (Plus (Chr alnum_i))) l <->
  exists seg, l = "/"%char :: seg /\ segment_ok seg.
Proof.
  unfold segment_ok. split.
  - intros H. apply inv_cat in H. destruct H as (u & v & -> & Hu & Hv).
    apply inv_lit in Hu. subst. apply plus_chr in Hv. exists v. split; [reflexivity | exact Hv].
  - intros (seg & -> & Hseg). change ("/"%char :: seg) with (["/"%char] ++ seg).
    constructor.
    + constructor. reflexivity.
    + apply plus_chr. exact Hseg.
Qed.

Lemma slash_segments l :
  matches (Star (Cat (Lit "/") (Plus (Chr alnum_i)))) l <->
  exists segs, Forall segment_ok segs /\
               l = List.concat (map (cons "/"%char) segs).
Proof.
  rewrite star_concat. split.
  - intros (ls & Hls & ->). induction Hls as [|x ls Hx Hls IH].
    + exists []. split; [constructor | reflexivity].
    + apply slash_segment in Hx. destruct Hx as (seg & -> & Hseg).
      destruct IH as (segs & Hsegs & E).
      exists (seg :: segs). split; [constructor; assumption|].
      cbn. rewrite E. reflexivity.
  - intros (segs & Hsegs & ->). exists (map (cons "/"%char) segs).
    split; [|reflexivity].
    induction Hsegs as [|seg segs Hseg Hsegs IH]; cbn; constructor; [|exact IH].
    apply slash_segment. eauto.
Qed.

Lemma tag_part l :
  matches (Opt (Cat (Lit ":") (Cat (Chr word) (UpTo 127 (Chr tag_char))))) l <->
  l = [] \/ exists t, l = ":"%char :: t /\ tag_ok t.
Proof.
  unfold Opt, tag_ok. split.
  - intros H. apply inv_alt in H. destruct H as [H|H].
    + left. apply inv_eps, H.
    + right. apply inv_cat in H. destruct H as (u & v & -> & Hu & Hv).
      apply inv_lit in Hu. subst. exists v. split; [reflexivity|].
      apply inv_cat in Hv. destruct Hv as (a & b & -> & Ha & Hb).
      apply inv_chr in Ha. destruct Ha as (c & -> & Hc).
      apply upto_chr in Hb. destruct Hb as [Hl Hb].
      exists c, b. auto.
  - intros [->|(t & -> & c & rest & -> & Hc & Hrest & Hl)].
    + apply m_altl. constructor.
    + apply m_altr. change (":"%char :: c :: rest) with ([":"%char] ++ [c] ++ rest).
      constructor; [constructor; reflexivity|].
      constructor; [constructor; exact Hc|].
      apply upto_chr. auto.
Qed.

Lemma validImagePattern_spec l : matches validImagePattern l <-> image_shape l.
Proof.
  unfold validImagePattern, image_shape. split.
  - intros H. apply inv_cat in H. destruct H as (u & v & -> & Hu & Hv).
    apply inv_cat in Hv. destruct Hv as (a & b & -> & Ha & Hb).
    apply plus_chr in Hu. apply slash_segments in Ha.
    destruct Ha as (segs & Hsegs & ->). apply tag_part in Hb.
    exists u, segs, b. repeat split; auto; apply Hu.
  - intros (seg & segs & tag & -> & Hseg & Hsegs & Htag).
    constructor; [apply plus_chr; exact Hseg|].
    constructor; [apply slash_segments; eauto | apply tag_part; exact Htag].
Qed.

(** C5 (counterexample): the [i] flag makes the segment class accept
    upper case, so ["UPPER:tag"] is valid; and the segments admit no
    [-], [_] or [.], so ["library/my-image"] is rejected. *)
Lemma C5_upper_accepted_dash_rejected :
  validateImageName "UPPER:tag" = true /\
  validateImageName "library/my-image" = false.
Proof. split; vm_compute; reflexivity. Qed.

(** C5 (amended): validateImageName accepts exactly the strings of
    [image_shape]: one or more non-empty segments of ASCII letters of
    either case and digits, joined by ["/"], optionally followed by [":"]
    and a tag made of a [\w] character and at most 127 more characters of
    [[\w.-]]; in particular it accepts ["pytorch/pytorch:latest"] and
    rejects the empty string. *)
Theorem C5_validateImageName_shape :
  (forall s, validateImageName s = true <-> image_shape (list_ascii_of_string s)) /\
  validateImageName "pytorch/pytorch:latest" = true /\
  validateImageName "" = false.
Proof.
  split; [|split; vm_compute; reflexivity].
  intros s. destruct s as [|a s'].
  - cbn. split; [discriminate|].
    intros (seg & segs & tag & E & [Hne _] & _).
    destruct seg; [contradiction | discriminate].
  - unfold validateImageName. rewrite matchb_spec. apply validImagePattern_spec.
Qed.

Lemma rep_chr (n : nat) (p : ascii -> bool) (l : list ascii) :
  matches (Rep n (Chr p)) l <-> List.length l = n /\ Forall (fun c => p c = true) l.
Proof.
  revert l. induction n as [|n IH]; intros l; cbn [Rep].
  - split.
    + intros H. apply inv_eps in H. subst. split; [reflexivity | constructor].
    + intros [Hl _]. destruct l; [constructor | discriminate].
  - split.
    + intros H. apply inv_cat in H. destruct H as (u & v & -> & Hu & Hv).
      apply inv_chr in Hu. destruct Hu as (c & -> & Hc). apply IH in Hv.
      destruct Hv as [Hl Hv]. cbn. split; [lia | constructor; assumption].
    + intros [Hl H]. destruct l as [|c l]; [discriminate|].
      inversion H; subst. change (c :: l) with ([c] ++ l).
      constructor; [constructor; assumption | apply IH; split; [cbn in Hl; lia | assumption]].
Qed.

Lemma cat_lit (c : ascii) (s : re) (v : list ascii) :
  matches s v -> matches (Cat (Lit c) s) (c :: v).
Proof.
  intros H. change (c :: v) with ([c] ++ v). constructor; [|exact H].
  constructor. apply Ascii.eqb_refl.
Qed.

Lemma inv_cat_lit (c : ascii) (s : re) (l : list ascii) :
  matches (Cat (Lit c) s) l -> exists v, l = c :: v /\ matches s v.
Proof.
  intros H. apply inv_cat in H. destruct H as (u & v & -> & Hu & Hv).
  apply inv_lit in Hu. subst. exists v. split; [reflexivity | exact Hv].
Qed.

(** X4: the [isValidUUID] test of the handlers accepts exactly the
    36-character strings made of 8, 4, 4, 4 and 12 hexadecimal digits
    (either case) separated by hyphens. *)
Theorem X4_isValidUUID_shape (s : string) :
  isValidUUID s = true <-> uuid_shape (list_ascii_of_string s).
Proof.
  unfold isValidUUID, uuid_shape. rewrite matchb_spec. unfold uuidPattern. split.
  - intros H.
    apply inv_cat in H. destruct H as (a & r1 & -> & Ha & H).
    apply inv_cat_lit in H. destruct H as (r2 & -> & H).
    apply inv_cat in H. destruct H as (b & r3 & -> & Hb & H).
    apply inv_cat_lit in H. destruct H as (r4 & -> & H).
    apply inv_cat in H. destruct H as (c & r5 & -> & Hc & H).
    apply inv_cat_lit in H. destruct H as (r6 & -> & H).
    apply inv_cat in H. destruct H as (d & r7 & -> & Hd & H).
    apply inv_cat_lit in H. destruct H as (e & -> & He).
    apply rep_chr in Ha, Hb, Hc, Hd, He.
    exists a, b, c, d, e. split; [reflexivity|].
    destruct Ha, Hb, Hc, Hd, He.
    repeat split; try assumption.
    repeat (apply Forall_app; split); assumption.
  - intros (a & b & c & d & e & -> & Ha & Hb & Hc & Hd & He & Hall).
    repeat rewrite Forall_app in Hall.
    destruct Hall as (Fa & Fb & Fc & Fd & Fe).
    constructor; [apply rep_chr; split; assumption|].
    apply cat_lit. constructor; [apply rep_chr; split; assumption|].
    apply cat_lit. constructor; [apply rep_chr; split; assumption|].
    apply cat_lit. constructor; [apply rep_chr; split; assumption|].
    apply cat_lit. apply rep_chr; split; assumption.
Qed.

(** X5: an image name accepted by validateImageName consists only of ASCII
    letters, digits and the characters [/ : _ . -]: no space, quote or
    shell metacharacter, so it is a single word of the [docker run]
    command line. *)
Theorem X5_valid_image_chars (s : string) :
  validateImageName s = true ->
  Forall (fun c => alnum_i c = true \/ In c ["/"; ":"; "_"; "."; "-"]%char)
    (list_ascii_of_string s).
Proof.
  intros H. destruct s as [|a s']; [discriminate|].
  unfold validateImageName in H. apply matchb_spec, validImagePattern_spec in H.
  destruct H as (seg & segs & tag & -> & [_ Hseg] & Hsegs & Htag).
  apply Forall_app. split.
  { eapply Forall_impl; [|exact Hseg]. cbn. auto. }
  apply Forall_app. split.
  - induction Hsegs as [|sg sgs [_ Hsg] Hsgs IH]; cbn; [constructor|].
    constructor; [right; left; reflexivity|].
    apply Forall_app. split; [|exact IH].
    eapply Forall_impl; [|exact Hsg]. cbn. auto.
  - destruct Htag as [->|(t & -> & c & rest & -> & Hc & Hrest & _)]; [constructor|].
    constructor; [right; right; left; reflexivity|].
    assert (Hw : forall d, word d = true ->
              alnum_i d = true \/ In d ["/"; ":"; "_"; "."; "-"]%char).
    { intros d Hd. unfold word in Hd. apply orb_prop in Hd.
      destruct Hd as [Hd|Hd]; [left; exact Hd|].
      apply Ascii.eqb_eq in Hd. subst. right. cbn. repeat (first [left; reflexivity | right]). }
    constructor; [apply Hw, Hc|].
    eapply Forall_impl; [|exact Hrest]. intros d Hd.
    unfold tag_char in Hd. apply orb_prop in Hd. destruct Hd as [Hd|Hd].
    + apply orb_prop in Hd. destruct Hd as [Hd|Hd]; [apply Hw, Hd|].
      apply Ascii.eqb_eq in Hd. subst. right. cbn. repeat (first [left; reflexivity | right]).
    + apply Ascii.eqb_eq in Hd. subst. right. cbn. repeat (first [left; reflexivity | right]).
Qed.

Lemma X5_witness :
  validateImageName "pytorch/pytorch:latest" = true /\
  Forall (fun c => alnum_i c = true \/ In c ["/"; ":"; "_"; "."; "-"]%char)
    (list_ascii_of_string "pytorch/pytorch:latest").
Proof.
  assert (H : validateImageName "pytorch/pytorch:latest" = true)
    by (vm_compute; reflexivity).
  split; [exact H | apply (X5_valid_image_chars _ H)].
Defined.

(** X6: for a job configuration that only names an accepted image and
    (optionally) a command, generateContainerConfig succeeds and the
    [docker run] line built from its result, with the empty environment and
    volume list it defaults to, applies the defaults 4g memory, 2 CPUs and
    all GPUs, then the image, then the command when it is non-empty. *)
Theorem X6_config_run_command (img : string) (cmd : option string) :
  validateImageName img = true ->
  exists cfg,
    generateContainerConfig (mkContainerConfig img cmd None None None) = inl cfg /\
    getDockerRunCommand cfg (Some []) (Some []) =
      match cmd with
      | Some (String a r) =>
          "docker run --rm --memory=4g --cpus=2 --gpus all " ++ img ++ " " ++ String a r
      | _ => "docker run --rm --memory=4g --cpus=2 --gpus all " ++ img
      end%string.
Proof.
  intros H. unfold generateContainerConfig. cbn [cc_image]. rewrite H. cbn [negb].
  eexists. split; [reflexivity|].
  destruct cmd as [[|a r]|]; reflexivity.
Qed.

Lemma X6_witness :
  validateImageName "pytorch/pytorch:latest" = true /\
  exists cfg,
    generateContainerConfig
      (mkContainerConfig "pytorch/pytorch:latest" (Some "python train.py"%string) None None None)
      = inl cfg /\
    getDockerRunCommand cfg (Some []) (Some []) =
      "docker run --rm --memory=4g --cpus=2 --gpus all pytorch/pytorch:latest python train.py"%string.
Proof.
  assert (H : validateImageName "pytorch/pytorch:latest" = true)
    by (vm_compute; reflexivity).
  split; [exact H | apply (X6_config_run_command _ (Some "python train.py"%string) H)].
Defined.

Lemma runner_call_ok (c : RunnerCall) (rt : JobRunner * Timers) :
  runner_ok rt -> runner_ok (runner_call c rt).
Proof.
  destruct rt as [r tm].
  intros [[Hr Ha] | (h & ms & Hr & Ha)]; cbn in Hr, Ha; subst r;
    destruct c as [ms'|]; cbn.
  - right. exists (next_timer tm), ms'. cbn. rewrite Ha. split; reflexivity.
  - left. split; [reflexivity | exact Ha].
  - right. exists h, ms. split; [reflexivity | exact Ha].
  - left. split; [reflexivity|]. unfold clearInterval. cbn. rewrite Ha. cbn.
    rewrite Nat.eqb_refl. reflexivity.
Qed.

(** X8: whatever sequence of start and stop calls a JobRunner receives, it
    owns at most one live polling interval: either it is stopped, with no
    handle and no timer, or it is running with exactly one timer, the one
    its handle names. A second start does not add a timer and stop clears
    the one there is. *)
Theorem X8_runner_single_interval (cs : list RunnerCall) : runner_ok (run_calls cs).
Proof.
  unfold run_calls.
  assert (H0 : runner_ok runner0) by (left; split; reflexivity).
  revert H0. generalize runner0. induction cs as [|c cs IH]; intros rt H; cbn.
  - exact H.
  - apply IH, runner_call_ok, H.
Qed.

(** ** UUID texts *)

Lemma hex_hi_x b : isxdigit (hex_hi b) = true. Proof. destruct b; reflexivity. Qed.
Lemma hex_lo_x b : isxdigit (hex_lo b) = true. Proof. destruct b; reflexivity. Qed.
Lemma hex_hi_dash b : Ascii.eqb (hex_hi b) "-" = false. Proof. destruct b; reflexivity. Qed.
Lemma hex_hi_brace b : Ascii.eqb (hex_hi b) "{" = false. Proof. destruct b; reflexivity. Qed.
Lemma hex_hi_hex b : hex_i (hex_hi b) = true. Proof. destruct b; reflexivity. Qed.
Lemma hex_lo_hex b : hex_i (hex_lo b) = true. Proof. destruct b; reflexivity. Qed.
Lemma hex_byte b : byte_of (hex_value (hex_hi b) * 16 + hex_value (hex_lo b)) = b.
Proof. destruct b; reflexivity. Qed.

Arguments hex_hi : simpl never.
Arguments hex_lo : simpl never.

(** PostgreSQL reads back the text it prints for a [uuid]. *)
Lemma pg_uuid_text u : pg_uuid (uuid_text u) = Some u.
Proof.
  destruct u. unfold pg_uuid, uuid_text, uuid_chars, hex2.
  rewrite list_ascii_of_string_of_list_ascii. cbn [app]. rewrite hex_hi_brace.
  repeat (first [rewrite hex_hi_x | rewrite hex_lo_x | rewrite hex_hi_dash
                | rewrite hex_byte | progress cbn -[isxdigit byte_of hex_value]]).
  reflexivity.
Qed.

Lemma uuid_text_inj a b : uuid_text a = uuid_text b -> a = b.
Proof.
  intros E. apply (f_equal pg_uuid) in E. rewrite !pg_uuid_text in E.
  injection E. auto.
Qed.

Lemma uuid_eqb_eq a b : uuid_eqb a b = true <-> a = b.
Proof.
  destruct a, b; unfold uuid_eqb; cbn. split.
  - intros H. repeat rewrite andb_true_iff in H.
    repeat match goal with H : _ /\ _ |- _ => destruct H end.
    repeat match goal with H : Byte.eqb _ _ = true |- _ =>
                             apply Byte.byte_dec_bl in H end.
    subst. reflexivity.
  - intros E. injection E. intros. subst.
    repeat rewrite Byte.byte_dec_lb by reflexivity. reflexivity.
Qed.

Lemma uuid_eqb_refl a : uuid_eqb a a = true.
Proof. apply uuid_eqb_eq. reflexivity. Qed.

Lemma uuid_eqb_neq a b : uuid_eqb a b = false <-> a <> b.
Proof.
  split.
  - intros H E. apply uuid_eqb_eq in E. congruence.
  - intros H. destruct (uuid_eqb a b) eqn:E; [|reflexivity].
    apply uuid_eqb_eq in E. contradiction.
Qed.

Lemma uuid_shape_valid (l : list ascii) : uuid_shape l -> matchb uuidPattern l = true.
Proof.
  intros (a & b & c & d & e & -> & Ha & Hb & Hc & Hd & He & Hall).
  apply matchb_spec.
  repeat rewrite Forall_app in Hall.
  destruct Hall as (Fa & Fb & Fc & Fd & Fe).
  constructor; [apply rep_chr; split; assumption|].
  apply cat_lit. constructor; [apply rep_chr; split; assumption|].
  apply cat_lit. constructor; [apply rep_chr; split; assumption|].
  apply cat_lit. constructor; [apply rep_chr; split; assumption|].
  apply cat_lit. apply rep_chr; split; assumption.
Qed.

(** The text of a [uuid] passes the handlers' UUID test. *)
Lemma isValidUUID_text u : isValidUUID (uuid_text u) = true.
Proof.
  unfold isValidUUID, uuid_text. rewrite list_ascii_of_string_of_list_ascii.
  apply uuid_shape_valid.
  destruct u. unfold uuid_chars, hex2. cbn [app u0 u1 u2 u3 u4 u5 u6 u7 u8 u9 u10 u11 u12 u13 u14 u15].
  match goal with
  | |- uuid_shape [?a1; ?a2; ?a3; ?a4; ?a5; ?a6; ?a7; ?a8; _;
                   ?b1; ?b2; ?b3; ?b4; _; ?c1; ?c2; ?c3; ?c4; _;
                   ?d1; ?d2; ?d3; ?d4; _;
                   ?e1; ?e2; ?e3; ?e4; ?e5; ?e6; ?e7; ?e8; ?e9; ?e10; ?e11; ?e12] =>
      exists [a1; a2; a3; a4; a5; a6; a7; a8], [b1; b2; b3; b4], [c1; c2; c3; c4],
        [d1; d2; d3; d4], [e1; e2; e3; e4; e5; e6; e7; e8; e9; e10; e11; e12]
  end.
  split; [reflexivity|].
  repeat split; try reflexivity.
  repeat constructor; apply hex_hi_hex || apply hex_lo_hex.
Qed.

(** ** Running a program alone *)

Lemma run_bind {A B} (p : Prog A) (f : A -> Prog B) env st :
  run (bind p f) env st =
  match run p env st with
  | (inl a, st') => run (f a) env st'
  | (inr e, st') => (inr e, st')
  end.
Proof.
  revert st. induction p as [a|e|C op k IH|C op k IH]; intros st; cbn;
    try reflexivity; destruct (op env st); apply IH.
Qed.

Lemma run_catch {A} (p : Prog A) (h : string -> Prog A) env st :
  run (catch p h) env st =
  match run p env st with
  | (inl a, st') => (inl a, st')
  | (inr e, st') => run (h e) env st'
  end.
Proof.
  revert st. induction p as [a|e|C op k IH|C op k IH]; intros st; cbn;
    try reflexivity; destruct (op env st); apply IH.
Qed.

(** ** Rows updated by id *)

Lemma find_job_some (jid : string) (js : list Job) (j : Job) :
  find_job jid js = Some j ->
  exists u, pg_uuid jid = Some u /\ find_job_u u js = Some j.
Proof.
  unfold find_job. destruct (pg_uuid jid) as [u|]; [|discriminate].
  intros H. exists u. split; [reflexivity | exact H].
Qed.

Lemma find_job_u_spec (u : Uuid) (js : list Job) (j : Job) :
  find_job_u u js = Some j -> In j js /\ id j = u.
Proof.
  unfold find_job_u. intros H. apply find_some in H. destruct H as [Hin Hq].
  apply uuid_eqb_eq in Hq. split; assumption.
Qed.

Lemma find_job_update_same (u : Uuid) (f : Job -> Job) (js : list Job) :
  (forall j, id (f j) = id j) ->
  find_job_u u (update_job u f js) = option_map f (find_job_u u js).
Proof.
  intros Hid. induction js as [|j js IH]; [reflexivity|].
  unfold find_job_u, update_job in *. cbn.
  destruct (uuid_eqb (id j) u) eqn:E; cbn.
  - rewrite Hid, E. reflexivity.
  - rewrite E. exact IH.
Qed.

Lemma find_job_nodup (js : list Job) (j : Job) :
  NoDup (map id js) -> In j js -> find_job_u (id j) js = Some j.
Proof.
  induction js as [|k js IH]; intros Hnd Hin; [contradiction|].
  inversion Hnd as [|x l Hnotin Hnd' E]; subst.
  unfold find_job_u in *. cbn.
  destruct Hin as [<-|Hin].
  - rewrite uuid_eqb_refl. reflexivity.
  - destruct (uuid_eqb (id k) (id j)) eqn:E.
    + apply uuid_eqb_eq in E. exfalso. apply Hnotin. rewrite E. apply in_map, Hin.
    + apply IH; assumption.
Qed.

Lemma oldest_in (b : Job) (js : list Job) : In (oldest b js) (b :: js).
Proof.
  revert b. induction js as [|j js IH]; intros b; cbn; [left; reflexivity|].
  destruct (createdAt j <? createdAt b).
  - destruct (IH j) as [E|H]; [right; left; exact E | right; right; exact H].
  - destruct (IH b) as [E|H]; [left; exact E | right; right; exact H].
Qed.

Lemma first_oldest_in (js : list Job) (j : Job) :
  first_oldest js = Some j -> In j js.
Proof.
  destruct js as [|b rest]; cbn; [discriminate|].
  intros H. injection H as <-. apply oldest_in.
Qed.

Lemma is_queued_status (j : Job) : is_queued j = true <-> status j = Queued.
Proof. unfold is_queued, JobStatus_eqb. destruct (status j); split; congruence. Qed.

Lemma first_oldest_queued (js : list Job) (j : Job) :
  first_oldest (filter is_queued js) = Some j -> In j js /\ status j = Queued.
Proof.
  intros H. apply first_oldest_in, filter_In in H. destruct H as [H Hq].
  split; [exact H | apply is_queued_status, Hq].
Qed.

Lemma id_set_assigned p t j : id (set_assigned p t j) = id j. Proof. reflexivity. Qed.
Lemma id_set_running t j : id (set_running t j) = id j. Proof. reflexivity. Qed.
Lemma id_set_finished s t c j : id (set_finished s t c j) = id j. Proof. reflexivity. Qed.

(* Keep these folded while the handlers are unfolded. *)
Arguments pg_uuid : simpl never.
Arguments uuid_text : simpl never.
Arguments uuid_eqb : simpl never.
Arguments find_job_u : simpl never.
Arguments find_provider_u : simpl never.
Arguments first_oldest : simpl never.
Arguments update_job : simpl never.
Arguments set_provider : simpl never.
Arguments to_numeric : simpl never.
Arguments numeric_value : simpl never.
Arguments isValidUUID : simpl never.
Arguments validateImageName : simpl never.
Arguments varchar_in : simpl never.
Arguments text_ok : simpl never.
Arguments calculateJobCost : simpl never.
Arguments round_cents : simpl never.
Arguments gtb : simpl never.
Arguments mul : simpl never.
Arguments generateContainerConfig : simpl never.

(** ** Job store transitions *)

(** C2 (counterexample): through the store operations alone, a job goes
    from queued straight to completed, then back to assigned. *)
Lemma C2_store_status_moves_backward :
  let st1 := snd (createJob demo_user "nvidia/cuda:11.7.1-base-ubuntu22.04"
                    None (env_at 1000) state0) in
  let st2 := snd (markJobCompleted demo_job (of_Z 1) (env_at 2000) st1) in
  let st3 := snd (assignJob demo_job demo_provider (env_at 3000) st2) in
  status (job_of demo_job st1) = Queued /\
  status (job_of demo_job st2) = Completed /\
  status (job_of demo_job st3) = Assigned.
Proof. vm_compute. repeat split. Qed.

(** C2 (amended): the job store enforces no transition order. For an
    existing job, [assignJob] (given a provider id PostgreSQL reads as a
    UUID), [markJobRunning], [markJobCompleted] and [markJobFailed] (given
    a cost that [NUMERIC(10,2)] accepts) rewrite its row to status
    assigned, running, completed and failed whatever status it had. *)
Theorem C2_store_transitions_unguarded (jid p : string) (c : num) (env : Env)
  (st : State) (j : Job) (pu : Uuid) (v : numeric) :
  find_job jid (jobs st) = Some j -> pg_uuid p = Some pu -> to_numeric c = inl v ->
  find_job jid (jobs (snd (assignJob jid p env st)))
    = Some (set_assigned pu (now env (reads st)) j) /\
  find_job jid (jobs (snd (markJobRunning jid env st)))
    = Some (set_running (now env (reads st)) j) /\
  find_job jid (jobs (snd (markJobCompleted jid c env st)))
    = Some (set_finished Completed (now env (reads st)) v j) /\
  find_job jid (jobs (snd (markJobFailed jid c env st)))
    = Some (set_finished Failed (now env (reads st)) v j).
Proof.
  intros Hf Hp Hc. destruct (find_job_some _ _ _ Hf) as (u & Hu & Hfu).
  unfold assignJob, markJobRunning, markJobCompleted, markJobFailed; cbn.
  unfold update_assign, update_running, update_finished, select_job, uuid_param,
    numeric_param; cbn.
  rewrite ?Hu, ?Hp, ?Hc; cbn.
  unfold find_job. rewrite ?Hu.
  rewrite !find_job_update_same by reflexivity. rewrite Hfu.
  repeat split; reflexivity.
Qed.

Lemma C2_witness :
  find_job demo_job (jobs scen3) = Some (job_of demo_job scen3) /\
  pg_uuid demo_provider2 = Some (uuid_demo 2) /\
  to_numeric (of_Z 1) = inl (NumCents 100) /\
  find_job demo_job (jobs (snd (assignJob demo_job demo_provider2 (env_at 5000) scen3)))
    = Some (set_assigned (uuid_demo 2) (now (env_at 5000) (reads scen3))
              (job_of demo_job scen3)) /\
  find_job demo_job (jobs (snd (markJobRunning demo_job (env_at 5000) scen3)))
    = Some (set_running (now (env_at 5000) (reads scen3)) (job_of demo_job scen3)) /\
  find_job demo_job (jobs (snd (markJobCompleted demo_job (of_Z 1) (env_at 5000) scen3)))
    = Some (set_finished Completed (now (env_at 5000) (reads scen3)) (NumCents 100)
              (job_of demo_job scen3)) /\
  find_job demo_job (jobs (snd (markJobFailed demo_job (of_Z 1) (env_at 5000) scen3)))
    = Some (set_finished Failed (now (env_at 5000) (reads scen3)) (NumCents 100)
              (job_of demo_job scen3)).
Proof.
  assert (H1 : find_job demo_job (jobs scen3) = Some (job_of demo_job scen3))
    by (vm_compute; reflexivity).
  assert (H2 : pg_uuid demo_provider2 = Some (uuid_demo 2)) by (vm_compute; reflexivity).
  assert (H3 : to_numeric (of_Z 1) = inl (NumCents 100)) by (vm_compute; reflexivity).
  split; [exact H1|]. split; [exact H2|]. split; [exact H3|].
  exact (C2_store_transitions_unguarded demo_job demo_provider2 (of_Z 1) (env_at 5000)
           scen3 (job_of demo_job scen3) (uuid_demo 2) (NumCents 100) H1 H2 H3).
Defined.

Lemma uuid_text_truthy u :
  match uuid_text u with EmptyString => false | String _ _ => true end = true.
Proof. reflexivity. Qed.

Ltac destr_inner :=
  match goal with
  | |- context [match ?x with _ => _ end] =>
      lazymatch x with
      | context [match _ with _ => _ end] => fail
      | _ => destruct x
      end
  end.

Ltac crunch rw :=
  repeat (first [ progress cbn | rewrite uuid_text_truthy | rewrite String.eqb_refl
                | progress rw ]).

Lemma report_running_run (jid : string) (u pu : Uuid) (j0 : Job) (et : option num)
  (env : Env) (st : State) :
  pg_uuid jid = Some u -> find_job_u u (jobs st) = Some j0 -> providerId j0 = Some pu ->
  post_jobs_report (Some jid) (Some (uuid_text pu)) (Some "running"%string) et env st
  = (inl (resp 200 BSuccess),
     mkState (update_job u (set_running (now env (reads st))) (jobs st))
       (providers st) (payments st) (draws st) (S (reads st))).
Proof.
  intros Hu Hf Hp.
  destruct jid as [|a jid']; [cbv in Hu; discriminate|].
  unfold post_jobs_report, getJob, report_switch, markJobRunning, update_running,
    select_job, uuid_param.
  crunch ltac:(rewrite ?Hu, ?Hf, ?Hp).
  reflexivity.
Qed.

Lemma chargeForJob_jobs (jobId userId : string) (amount : num) (d : string)
  (env : Env) (st : State) :
  jobs (snd (chargeForJob jobId userId amount d env st)) = jobs st.
Proof.
  unfold chargeForJob, simulatePayment, insert_payment, paymentIntents_create,
    uuid_param, numeric_param; cbn.
  repeat (first [ progress cbn | destr_inner ]); reflexivity.
Qed.

Lemma completed_cost_jobs (et : option num) (job : JobObj) (env : Env) (st : State) :
  jobs (snd (completed_cost et job env st)) = jobs st.
Proof.
  unfold completed_cost; destruct et as [x|]; [destruct (truthy_num x)|];
    destruct (o_startedAt job); reflexivity.
Qed.

Lemma completed_cost_state (et : option num) (job : JobObj) (env : Env) (st : State) :
  exists n, snd (completed_cost et job env st)
            = mkState (jobs st) (providers st) (payments st) (draws st) n.
Proof.
  unfold completed_cost; destruct et as [x|]; [destruct (truthy_num x)|];
    destruct (o_startedAt job), st; eexists; cbn; reflexivity.
Qed.

Lemma failed_cost_state (job : JobObj) (env : Env) (st : State) :
  exists n, snd (failed_cost job env st)
            = mkState (jobs st) (providers st) (payments st) (draws st) n.
Proof. unfold failed_cost; destruct (o_startedAt job), st; eexists; cbn; reflexivity. Qed.

Lemma existsb_pay_fresh (x : Uuid) (ps : list Payment) :
  ~ In x (map pay_id ps) -> existsb (fun p => uuid_eqb (pay_id p) x) ps = false.
Proof.
  induction ps as [|p ps IH]; cbn; [reflexivity|].
  intros Hn. destruct (uuid_eqb (pay_id p) x) eqn:E.
  - apply uuid_eqb_eq in E. exfalso. apply Hn. left. exact E.
  - apply IH. intros Hi. apply Hn. right. exact Hi.
Qed.

(** [chargeForJob], on each of its paths, inserts one payment row. *)
Lemma chargeForJob_run (jid : string) (u : Uuid) (uid : string) (amount : num)
  (d : string) (v : numeric) (env : Env) (st : State) :
  pg_uuid jid = Some u -> to_numeric amount = inl v ->
  ~ In (uuid env (draws st)) (map pay_id (payments st)) ->
  exists res ps,
    chargeForJob jid uid amount d env st =
      (inl res,
       mkState (jobs st) (providers st)
         (payments st ++ [mkPayment (uuid env (draws st)) u v ps (now env (reads st))])
         (S (draws st)) (S (reads st))) /\
    paymentId res = Some (uuid_text (uuid env (draws st))) /\
    StripeCharge.amount res = amount.
Proof.
  intros Hu Hv Hfresh. apply existsb_pay_fresh in Hfresh.
  unfold chargeForJob, simulatePayment, insert_payment, paymentIntents_create,
    uuid_param, numeric_param; cbn.
  destruct (stripe_configured env); cbn;
    [destruct (stripe_ok env) | destruct (random_ok env)]; cbn;
    rewrite pg_uuid_text, Hu, Hv; cbn; rewrite Hfresh; cbn;
    do 2 eexists; (split; [reflexivity|]); split; reflexivity.
Qed.

Arguments completed_cost : simpl never.
Arguments failed_cost : simpl never.
Arguments chargeForJob : simpl never.

Lemma report_completed_jobs (jid : string) (u pu : Uuid) (j0 : Job) (et : option num)
  (env : Env) (st stc : State) (c : num) (v : numeric) :
  pg_uuid jid = Some u -> find_job_u u (jobs st) = Some j0 -> providerId j0 = Some pu ->
  completed_cost et (dbJobToJob j0) env st = (inl c, stc) -> to_numeric c = inl v ->
  jobs (snd (post_jobs_report (Some jid) (Some (uuid_text pu)) (Some "completed"%string)
               et env st))
  = update_job u (set_finished Completed (now env (reads stc)) v) (jobs st).
Proof.
  intros Hu Hf Hp Hc Hv.
  pose proof (completed_cost_jobs et (dbJobToJob j0) env st) as Hj. rewrite Hc in Hj; cbn [snd] in Hj.
  destruct jid as [|a jid']; [cbv in Hu; discriminate|].
  unfold post_jobs_report, getJob, report_switch, select_job, uuid_param.
  crunch ltac:(rewrite ?Hu, ?Hf, ?Hp).
  rewrite run_catch, run_bind, Hc.
  unfold update_finished, numeric_param, select_job, update_provider_status, uuid_param.
  crunch ltac:(rewrite ?Hu, ?Hv, ?pg_uuid_text).
  destruct (gtb c zero).
  - rewrite !run_bind.
    match goal with
    | |- context [run (chargeForJob ?a ?b ?c ?d) ?e ?s] =>
        pose proof (chargeForJob_jobs a b c d e s) as Hch;
        destruct (run (chargeForJob a b c d) e s) as [[r|err] st3]
    end; cbn in *; crunch ltac:(rewrite ?pg_uuid_text); rewrite ?Hch, ?Hj; reflexivity.
  - cbn. rewrite Hj. reflexivity.
Qed.

Lemma report_completed_paid (jid : string) (u pu : Uuid) (j0 : Job) (et : option num)
  (env : Env) (st : State) (c : num) (n : nat) (v : numeric) :
  pg_uuid jid = Some u -> find_job_u u (jobs st) = Some j0 -> providerId j0 = Some pu ->
  completed_cost et (dbJobToJob j0) env st
    = (inl c, mkState (jobs st) (providers st) (payments st) (draws st) n) ->
  to_numeric c = inl v -> gtb c zero = true ->
  ~ In (uuid env (draws st)) (map pay_id (payments st)) ->
  exists ps,
    post_jobs_report (Some jid) (Some (uuid_text pu)) (Some "completed"%string) et env st
    = (inl (resp 200 BSuccess),
       mkState (update_job u (set_finished Completed (now env n) v) (jobs st))
         (set_provider pu (with_status POnline) (providers st))
         (payments st ++ [mkPayment (uuid env (draws st)) u v ps (now env (S n))])
         (S (draws st)) (S (S n))).
Proof.
  intros Hu Hf Hp Hc Hv Hg Hfresh.
  destruct jid as [|a jid']; [cbv in Hu; discriminate|].
  unfold post_jobs_report, getJob, report_switch, select_job, uuid_param.
  crunch ltac:(rewrite ?Hu, ?Hf, ?Hp).
  rewrite run_catch, run_bind, Hc.
  unfold update_finished, numeric_param, select_job, update_provider_status, uuid_param.
  crunch ltac:(rewrite ?Hu, ?Hv, ?pg_uuid_text).
  rewrite Hg. rewrite !run_bind.
  match goal with
  | |- context [run (chargeForJob ?a ?b ?c ?d) ?e ?s] =>
      destruct (chargeForJob_run a u b c d v e s Hu Hv Hfresh) as (res & ps & E & _);
      rewrite E
  end.
  crunch ltac:(rewrite ?pg_uuid_text). exists ps. reflexivity.
Qed.

Lemma failed_cost_jobs (job : JobObj) (env : Env) (st : State) :
  jobs (snd (failed_cost job env st)) = jobs st.
Proof. unfold failed_cost; destruct (o_startedAt job); reflexivity. Qed.

Lemma report_failed_jobs (jid : string) (u pu : Uuid) (j0 : Job) (et : option num)
  (env : Env) (st stc : State) (c : num) (v : numeric) :
  pg_uuid jid = Some u -> find_job_u u (jobs st) = Some j0 -> providerId j0 = Some pu ->
  failed_cost (dbJobToJob j0) env st = (inl c, stc) -> to_numeric c = inl v ->
  jobs (snd (post_jobs_report (Some jid) (Some (uuid_text pu)) (Some "failed"%string)
               et env st))
  = update_job u (set_finished Failed (now env (reads stc)) v) (jobs st).
Proof.
  intros Hu Hf Hp Hc Hv.
  pose proof (failed_cost_jobs (dbJobToJob j0) env st) as Hj.
  rewrite Hc in Hj; cbn [snd] in Hj.
  destruct jid as [|a jid']; [cbv in Hu; discriminate|].
  unfold post_jobs_report, getJob, report_switch, select_job, uuid_param.
  crunch ltac:(rewrite ?Hu, ?Hf, ?Hp).
  rewrite run_catch, run_bind, Hc.
  unfold update_finished, numeric_param, select_job, update_provider_status, uuid_param.
  crunch ltac:(rewrite ?Hu, ?Hv, ?pg_uuid_text).
  destruct (gtb c zero).
  - rewrite !run_bind.
    match goal with
    | |- context [run (chargeForJob ?a ?b ?c ?d) ?e ?s] =>
        pose proof (chargeForJob_jobs a b c d e s) as Hch;
        destruct (run (chargeForJob a b c d) e s) as [[r|err] st3]
    end; cbn in *; crunch ltac:(rewrite ?pg_uuid_text); rewrite ?Hch, ?Hj; reflexivity.
  - cbn. rewrite Hj. reflexivity.
Qed.

Lemma report_failed_paid (jid : string) (u pu : Uuid) (j0 : Job) (et : option num)
  (env : Env) (st : State) (c : num) (n : nat) (v : numeric) :
  pg_uuid jid = Some u -> find_job_u u (jobs st) = Some j0 -> providerId j0 = Some pu ->
  failed_cost (dbJobToJob j0) env st
    = (inl c, mkState (jobs st) (providers st) (payments st) (draws st) n) ->
  to_numeric c = inl v -> gtb c zero = true ->
  ~ In (uuid env (draws st)) (map pay_id (payments st)) ->
  exists ps,
    post_jobs_report (Some jid) (Some (uuid_text pu)) (Some "failed"%string) et env st
    = (inl (resp 200 BSuccess),
       mkState (update_job u (set_finished Failed (now env n) v) (jobs st))
         (set_provider pu (with_status POnline) (providers st))
         (payments st ++ [mkPayment (uuid env (draws st)) u v ps (now env (S n))])
         (S (draws st)) (S (S n))).
Proof.
  intros Hu Hf Hp Hc Hv Hg Hfresh.
  destruct jid as [|a jid']; [cbv in Hu; discriminate|].
  unfold post_jobs_report, getJob, report_switch, select_job, uuid_param.
  crunch ltac:(rewrite ?Hu, ?Hf, ?Hp).
  rewrite run_catch, run_bind, Hc.
  unfold update_finished, numeric_param, select_job, update_provider_status, uuid_param.
  crunch ltac:(rewrite ?Hu, ?Hv, ?pg_uuid_text).
  rewrite Hg. rewrite !run_bind.
  match goal with
  | |- context [run (chargeForJob ?a ?b ?c ?d) ?e ?s] =>
      destruct (chargeForJob_run a u b c d v e s Hu Hv Hfresh) as (res & ps & E & _);
      rewrite E
  end.
  crunch ltac:(rewrite ?pg_uuid_text). exists ps. reflexivity.
Qed.

(** ** Status reports *)

(** C9: a ["running"] report from the job's provider overwrites
    [startedAt] with the time it reads, whatever [startedAt] held (it was
    set at assignment); a later ["completed"] report without
    [executionTime] charges the time from that ["running"] report to the
    completion, rounded to cents and stored as [NUMERIC(10,2)]. *)
Theorem C9_running_report_resets_startedAt (jid : string) (env1 env2 : Env)
  (st : State) (j0 : Job) (pu : Uuid) (v : numeric) :
  find_job jid (jobs st) = Some j0 -> providerId j0 = Some pu ->
  to_numeric (round_cents (calculateJobCost (now env1 (reads st))
                             (now env2 (S (reads st))))) = inl v ->
  let st1 := snd (post_jobs_report (Some jid) (Some (uuid_text pu))
                    (Some "running"%string) None env1 st) in
  (exists j1, find_job jid (jobs st1) = Some j1 /\
              startedAt j1 = Some (now env1 (reads st)) /\ status j1 = Running) /\
  (exists j2,
     find_job jid (jobs (snd (post_jobs_report (Some jid) (Some (uuid_text pu))
                                (Some "completed"%string) None env2 st1)))
       = Some j2 /\ status j2 = Completed /\ cost j2 = v).
Proof.
  intros Hf Hp Hv. destruct (find_job_some _ _ _ Hf) as (u & Hu & Hfu).
  rewrite (report_running_run jid u pu j0 None env1 st Hu Hfu Hp). cbv zeta; cbn [snd].
  assert (Hf1 : find_job_u u (update_job u (set_running (now env1 (reads st))) (jobs st))
                = Some (set_running (now env1 (reads st)) j0)).
  { rewrite find_job_update_same by reflexivity. rewrite Hfu. reflexivity. }
  split.
  - unfold find_job. rewrite Hu. cbn [jobs]. rewrite Hf1.
    eexists. split; [reflexivity|]. split; reflexivity.
  - rewrite (report_completed_jobs jid u pu (set_running (now env1 (reads st)) j0) None env2
               (mkState (update_job u (set_running (now env1 (reads st))) (jobs st))
                    (providers st) (payments st) (draws st) (S (reads st)))
               (mkState (update_job u (set_running (now env1 (reads st))) (jobs st))
                    (providers st) (payments st) (draws st) (S (S (reads st))))
               (round_cents (calculateJobCost (now env1 (reads st)) (now env2 (S (reads st)))))
               v Hu Hf1 Hp); [| unfold completed_cost; reflexivity | exact Hv].
    unfold find_job. rewrite Hu. cbn [jobs]. rewrite find_job_update_same by reflexivity.
    rewrite Hf1. eexists. split; [reflexivity|]. split; reflexivity.
Qed.

Lemma C9_witness :
  find_job demo_job (jobs scen3) = Some (job_of demo_job scen3) /\
  providerId (job_of demo_job scen3) = Some (uuid_demo 1) /\
  to_numeric (round_cents (calculateJobCost (now (env_at 4000) (reads scen3))
                             (now (env_at 304000) (S (reads scen3))))) = inl (NumCents 50) /\
  let st1 := snd (post_jobs_report (Some demo_job) (Some (uuid_text (uuid_demo 1)))
                    (Some "running"%string) None (env_at 4000) scen3) in
  (exists j1, find_job demo_job (jobs st1) = Some j1 /\
              startedAt j1 = Some (now (env_at 4000) (reads scen3)) /\ status j1 = Running) /\
  (exists j2,
     find_job demo_job (jobs (snd (post_jobs_report (Some demo_job)
                                     (Some (uuid_text (uuid_demo 1)))
                                     (Some "completed"%string) None (env_at 304000) st1)))
       = Some j2 /\ status j2 = Completed /\ cost j2 = NumCents 50).
Proof.
  assert (H1 : find_job demo_job (jobs scen3) = Some (job_of demo_job scen3))
    by (vm_compute; reflexivity).
  assert (H2 : providerId (job_of demo_job scen3) = Some (uuid_demo 1))
    by (vm_compute; reflexivity).
  assert (H3 : to_numeric (round_cents (calculateJobCost (now (env_at 4000) (reads scen3))
                             (now (env_at 304000) (S (reads scen3))))) = inl (NumCents 50))
    by (vm_compute; reflexivity).
  split; [exact H1|]. split; [exact H2|]. split; [exact H3|].
  exact (C9_running_report_resets_startedAt demo_job (env_at 4000) (env_at 304000) scen3
           (job_of demo_job scen3) (uuid_demo 1) (NumCents 50) H1 H2 H3).
Defined.

(** C3 (counterexample): in the spec's scenario, the provider reports
    ["completed"] (5 minutes) and retries the same report: the job is
    completed when the retry arrives, both reports answer 200, and two
    payment rows are created. *)
Lemma C3_retried_report_charges_twice :
  let r1 := post_jobs_report (Some demo_job) (Some demo_provider)
              (Some "completed"%string) (Some (of_Z 5)) (env_at 10000) scen3 in
  let r2 := post_jobs_report (Some demo_job) (Some demo_provider)
              (Some "completed"%string) (Some (of_Z 5)) (env_at 20000) (snd r1) in
  fst r1 = inl (resp 200 BSuccess) /\
  status (job_of demo_job (snd r1)) = Completed /\
  fst r2 = inl (resp 200 BSuccess) /\
  List.length (payments scen3) = 0%nat /\
  List.length (payments (snd r2)) = 2%nat.
Proof. vm_compute. repeat split. Qed.

(** C3 (amended): the report handler does not look at the job's status
    before charging. For a job in any status (completed and failed
    included) and a report from its provider, a ["completed"] report
    whose cost is positive, or a ["failed"] report whose partial cost is
    positive, answers 200, rewrites the row (status, finishedAt, cost)
    and appends one more payment row, provided the cost fits
    [NUMERIC(10,2)] and the payment id drawn is fresh; the job keeps its
    provider, so the same report can be repeated and charges again. *)
Theorem C3_report_charges_whatever_status (jid : string) (et : option num)
  (env : Env) (st : State) (j0 : Job) (pu : Uuid) (c : num) (v : numeric) :
  find_job jid (jobs st) = Some j0 -> providerId j0 = Some pu ->
  ~ In (uuid env (draws st)) (map pay_id (payments st)) ->
  gtb c zero = true -> to_numeric c = inl v ->
  (fst (completed_cost et (dbJobToJob j0) env st) = inl c ->
   let r := post_jobs_report (Some jid) (Some (uuid_text pu)) (Some "completed"%string)
              et env st in
   fst r = inl (resp 200 BSuccess) /\
   List.length (payments (snd r)) = S (List.length (payments st)) /\
   exists j1, find_job jid (jobs (snd r)) = Some j1 /\
              status j1 = Completed /\ providerId j1 = Some pu /\ cost j1 = v) /\
  (fst (failed_cost (dbJobToJob j0) env st) = inl c ->
   let r := post_jobs_report (Some jid) (Some (uuid_text pu)) (Some "failed"%string)
              et env st in
   fst r = inl (resp 200 BSuccess) /\
   List.length (payments (snd r)) = S (List.length (payments st)) /\
   exists j1, find_job jid (jobs (snd r)) = Some j1 /\
              status j1 = Failed /\ providerId j1 = Some pu /\ cost j1 = v).
Proof.
  intros Hf Hp Hfresh Hg Hv. destruct (find_job_some _ _ _ Hf) as (u & Hu & Hfu).
  split; intros Hc; cbv zeta.
  - destruct (completed_cost_state et (dbJobToJob j0) env st) as [n Hn].
    destruct (completed_cost et (dbJobToJob j0) env st) as [r stc] eqn:E.
    cbn in Hc, Hn. subst r stc.
    destruct (report_completed_paid jid u pu j0 et env st c n v Hu Hfu Hp E Hv Hg Hfresh)
      as [ps ->].
    cbn [fst snd payments jobs]. split; [reflexivity|].
    rewrite length_app; cbn [List.length]. split; [lia|].
    unfold find_job. rewrite Hu, find_job_update_same by reflexivity. rewrite Hfu.
    eexists. split; [reflexivity|]. cbn. repeat split; assumption.
  - destruct (failed_cost_state (dbJobToJob j0) env st) as [n Hn].
    destruct (failed_cost (dbJobToJob j0) env st) as [r stc] eqn:E.
    cbn in Hc, Hn. subst r stc.
    destruct (report_failed_paid jid u pu j0 et env st c n v Hu Hfu Hp E Hv Hg Hfresh)
      as [ps ->].
    cbn [fst snd payments jobs]. split; [reflexivity|].
    rewrite length_app; cbn [List.length]. split; [lia|].
    unfold find_job. rewrite Hu, find_job_update_same by reflexivity. rewrite Hfu.
    eexists. split; [reflexivity|]. cbn. repeat split; assumption.
Qed.

Lemma C3_witness :
  find_job demo_job (jobs scen3) = Some (job_of demo_job scen3) /\
  providerId (job_of demo_job scen3) = Some (uuid_demo 1) /\
  ~ In (uuid (env_at 603000) (draws scen3)) (map pay_id (payments scen3)) /\
  gtb lit_0_5 zero = true /\ to_numeric lit_0_5 = inl (NumCents 50) /\
  fst (completed_cost (Some (of_Z 5)) (dbJobToJob (job_of demo_job scen3))
         (env_at 603000) scen3) = inl lit_0_5 /\
  fst (failed_cost (dbJobToJob (job_of demo_job scen3)) (env_at 603000) scen3)
    = inl lit_0_5 /\
  ((fst (completed_cost (Some (of_Z 5)) (dbJobToJob (job_of demo_job scen3))
           (env_at 603000) scen3) = inl lit_0_5 ->
    let r := post_jobs_report (Some demo_job) (Some (uuid_text (uuid_demo 1)))
               (Some "completed"%string) (Some (of_Z 5)) (env_at 603000) scen3 in
    fst r = inl (resp 200 BSuccess) /\
    List.length (payments (snd r)) = S (List.length (payments scen3)) /\
    exists j1, find_job demo_job (jobs (snd r)) = Some j1 /\
               status j1 = Completed /\ providerId j1 = Some (uuid_demo 1) /\
               cost j1 = NumCents 50) /\
   (fst (failed_cost (dbJobToJob (job_of demo_job scen3)) (env_at 603000) scen3)
      = inl lit_0_5 ->
    let r := post_jobs_report (Some demo_job) (Some (uuid_text (uuid_demo 1)))
               (Some "failed"%string) (Some (of_Z 5)) (env_at 603000) scen3 in
    fst r = inl (resp 200 BSuccess) /\
    List.length (payments (snd r)) = S (List.length (payments scen3)) /\
    exists j1, find_job demo_job (jobs (snd r)) = Some j1 /\
               status j1 = Failed /\ providerId j1 = Some (uuid_demo 1) /\
               cost j1 = NumCents 50)).
Proof.
  assert (H1 : find_job demo_job (jobs scen3) = Some (job_of demo_job scen3))
    by (vm_compute; reflexivity).
  assert (H2 : providerId (job_of demo_job scen3) = Some (uuid_demo 1))
    by (vm_compute; reflexivity).
  assert (H3 : ~ In (uuid (env_at 603000) (draws scen3)) (map pay_id (payments scen3)))
    by (vm_compute; tauto).
  assert (H4 : gtb lit_0_5 zero = true) by (vm_compute; reflexivity).
  assert (H5 : to_numeric lit_0_5 = inl (NumCents 50)) by (vm_compute; reflexivity).
  split; [exact H1|]. split; [exact H2|]. split; [exact H3|]. split; [exact H4|].
  split; [exact H5|].
  split; [vm_compute; reflexivity|]. split; [vm_compute; reflexivity|].
  exact (C3_report_charges_whatever_status demo_job (Some (of_Z 5)) (env_at 603000) scen3
           (job_of demo_job scen3) (uuid_demo 1) lit_0_5 (NumCents 50) H1 H2 H3 H4 H5).
Defined.

(** ** Charging *)

(** C7 (counterexample): a charge of 0, in simulation mode and through a
    configured Stripe key alike, inserts a [payments] row. *)
Lemma C7_zero_charge_recorded :
  List.length (payments (snd (chargeForJob demo_job demo_user zero
                                "ComputeFabric: GPU compute job" (env_at 0) state0)))
    = 1%nat /\
  List.length (payments (snd (chargeForJob demo_job demo_user zero
                                "ComputeFabric: GPU compute job"
                                (mk_env (fun _ => 0) uuid_demo true true true) state0)))
    = 1%nat.
Proof. split; vm_compute; reflexivity. Qed.

(** C7 (amended): [chargeForJob] does not special-case any amount: on
    every path (simulation, Stripe call succeeding, Stripe call
    throwing), for a job id PostgreSQL reads as a UUID, an amount that
    [NUMERIC(10,2)] accepts (stored rounded to cents) and a fresh payment
    id, it appends exactly one payment row for the job with that stored
    amount and returns a result carrying the row's id and the amount. *)
Theorem C7_chargeForJob_one_row (jid : string) (u : Uuid) (uid : string)
  (amount : num) (d : string) (v : numeric) (env : Env) (st : State) :
  pg_uuid jid = Some u -> to_numeric amount = inl v ->
  ~ In (uuid env (draws st)) (map pay_id (payments st)) ->
  exists res ps,
    chargeForJob jid uid amount d env st =
      (inl res,
       mkState (jobs st) (providers st)
         (payments st ++ [mkPayment (uuid env (draws st)) u v ps (now env (reads st))])
         (S (draws st)) (S (reads st))) /\
    paymentId res = Some (uuid_text (uuid env (draws st))) /\
    StripeCharge.amount res = amount.
Proof. apply chargeForJob_run. Qed.

Lemma C7_witness :
  pg_uuid demo_job = Some (uuid_demo 0) /\ to_numeric zero = inl (NumCents 0) /\
  ~ In (uuid (env_at 0) (draws state0)) (map pay_id (payments state0)) /\
  exists res ps,
    chargeForJob demo_job demo_user zero "charge" (env_at 0) state0 =
      (inl res,
       mkState (jobs state0) (providers state0)
         (payments state0 ++ [mkPayment (uuid (env_at 0) (draws state0)) (uuid_demo 0)
                                (NumCents 0) ps (now (env_at 0) (reads state0))])
         (S (draws state0)) (S (reads state0))) /\
    paymentId res = Some (uuid_text (uuid (env_at 0) (draws state0))) /\
    StripeCharge.amount res = zero.
Proof.
  assert (H1 : pg_uuid demo_job = Some (uuid_demo 0)) by (vm_compute; reflexivity).
  assert (H2 : to_numeric zero = inl (NumCents 0)) by (vm_compute; reflexivity).
  assert (H3 : ~ In (uuid (env_at 0) (draws state0)) (map pay_id (payments state0)))
    by (cbn; tauto).
  split; [exact H1|]. split; [exact H2|]. split; [exact H3|].
  exact (C7_chargeForJob_one_row demo_job (uuid_demo 0) demo_user zero "charge"
           (NumCents 0) (env_at 0) state0 H1 H2 H3).
Defined.

(** ** Users identified by a non-UUID string *)

(** C10: [POST /jobs] with a non-empty userId that is not a UUID creates
    the job under the freshly drawn [uuidv4()] (itself a UUID), so no row
    gets the submitted identifier; and [GET /jobs?userId=] with that
    identifier answers an empty list, whatever the database holds. *)
Theorem C10_non_uuid_user_jobs_unlisted (u img : string) (cmd : option string)
  (stq : option string) (limit : Z) (env : Env) (st : State) :
  u <> EmptyString ->
  isValidUUID u = false ->
  (forall j, fst (post_jobs (Some u) (Some img) cmd env st)
             = inl (resp 201 (BJob j)) ->
           o_userId j = uuid_text (uuid env (draws st)) /\ o_userId j <> u) /\
  filter (of_user u) (jobs (snd (post_jobs (Some u) (Some img) cmd env st)))
    = filter (of_user u) (jobs st) /\
  get_jobs (Some u) stq limit env st = (inl (resp 200 (BJobs [])), st).
Proof.
  intros Hne Hu.
  assert (Hdiff : forall x, uuid_text x <> u).
  { intros x E. rewrite <- E, isValidUUID_text in Hu. discriminate. }
  assert (Hno : forall j, of_user u j = false)
    by (intros j; unfold of_user; apply String.eqb_neq, Hdiff).
  destruct u as [|a u']; [contradiction|].
  split; [|split].
  - intros j. unfold post_jobs, createJob, insert_job, uuid_param.
    cbn. rewrite Hu.
    repeat (first [progress cbn | rewrite pg_uuid_text | destr_inner]);
      intros E; try discriminate;
      injection E as <-; cbn; (split; [reflexivity | apply Hdiff]).
  - unfold post_jobs, createJob, insert_job, uuid_param.
    cbn. rewrite Hu.
    repeat (first [progress cbn | rewrite pg_uuid_text | destr_inner]); try reflexivity.
    all: rewrite filter_app; cbn [filter]; rewrite Hno; apply app_nil_r.
  - unfold get_jobs. cbn. rewrite Hu. reflexivity.
Qed.

Lemma C10_witness :
  "electron-user"%string <> EmptyString /\
  isValidUUID "electron-user" = false /\
  ((forall j, fst (post_jobs (Some "electron-user"%string)
                     (Some "pytorch/pytorch:latest"%string) None (env_at 0) state0)
              = inl (resp 201 (BJob j)) ->
             o_userId j = uuid_text (uuid (env_at 0) (draws state0)) /\
             o_userId j <> "electron-user"%string) /\
   filter (of_user "electron-user")
     (jobs (snd (post_jobs (Some "electron-user"%string)
                   (Some "pytorch/pytorch:latest"%string) None (env_at 0) state0)))
     = filter (of_user "electron-user") (jobs state0) /\
   get_jobs (Some "electron-user"%string) None 20 (env_at 0) state0
     = (inl (resp 200 (BJobs [])), state0)).
Proof.
  assert (H1 : "electron-user"%string <> EmptyString) by discriminate.
  assert (H2 : isValidUUID "electron-user" = false) by (vm_compute; reflexivity).
  split; [exact H1|]. split; [exact H2|].
  exact (C10_non_uuid_user_jobs_unlisted "electron-user" "pytorch/pytorch:latest" None
           None 20 (env_at 0) state0 H1 H2).
Defined.

(** ** Assignment *)

(** C4 (counterexample): a queued job whose [docker_image] is NULL is
    claimed by an online provider; the config fails, the handler answers
    500, and the job stays assigned to the provider. *)
Lemma C4_failed_config_job_not_requeued :
  let r := post_jobs_assign (Some demo_provider) (env_at 2000) st_null_image in
  fst r = inl (resp 500 (BError "Failed to assign job")) /\
  status (job_of demo_job (snd r)) = Assigned /\
  providerId (job_of demo_job (snd r)) = Some (uuid_demo 1) /\
  providers (snd r) = providers st_null_image.
Proof. vm_compute. repeat split. Qed.

(** C4 (amended): when container-config generation fails for the
    claimed job, [POST /jobs/assign] answers 500 and does not undo the
    claim: the job stays [assigned] to the requesting provider with
    [startedAt] set, and the provider table is left as it was (the
    provider stays online, it is not marked busy). *)
Theorem C4_failed_config_keeps_claim (pid : string) (pu : Uuid) (env : Env)
  (st : State) (pr : Provider) (j : Job) :
  pg_uuid pid = Some pu ->
  find_provider_u pu (providers st) = Some pr -> p_status pr = POnline ->
  NoDup (map id (jobs st)) ->
  first_oldest (filter is_queued (jobs st)) = Some j ->
  validateImageName (image_of j) = false ->
  fst (post_jobs_assign (Some pid) env st)
    = inl (resp 500 (BError "Failed to assign job")) /\
  providers (snd (post_jobs_assign (Some pid) env st)) = providers st /\
  exists j', find_job_u (id j) (jobs (snd (post_jobs_assign (Some pid) env st)))
               = Some j' /\
             status j' = Assigned /\ providerId j' = Some pu /\
             startedAt j' = Some (now env (reads st)).
Proof.
  intros Hpu Hpr Hon Hnd Hq Hv.
  destruct (first_oldest_queued _ _ Hq) as [Hin _].
  pose proof (find_job_nodup _ _ Hnd Hin) as Hf.
  assert (Hf' : find_job_u (id j)
                  (update_job (id j) (set_assigned pu (now env (reads st))) (jobs st))
                = Some (set_assigned pu (now env (reads st)) j)).
  { rewrite find_job_update_same by reflexivity. rewrite Hf. reflexivity. }
  destruct pid as [|c pid']; [cbv in Hpu; discriminate|].
  unfold post_jobs_assign, select_provider, getNextJob, select_next_queued, assignJob,
    update_assign, select_job, uuid_param.
  crunch ltac:(rewrite ?Hpu, ?Hpr, ?Hon, ?Hq, ?pg_uuid_text).
  rewrite Hf'. cbn. unfold generateContainerConfig. cbn.
  unfold image_of in Hv. rewrite Hv. cbn.
  split; [reflexivity|]. split; [reflexivity|].
  rewrite Hf'. eexists. split; [reflexivity|]. repeat split.
Qed.

Lemma C4_witness :
  pg_uuid demo_provider = Some (uuid_demo 1) /\
  find_provider_u (uuid_demo 1) (providers st_null_image)
    = Some (mkProvider (uuid_demo 1) None POnline "gpu" 500) /\
  p_status (mkProvider (uuid_demo 1) None POnline "gpu" 500) = POnline /\
  NoDup (map id (jobs st_null_image)) /\
  first_oldest (filter is_queued (jobs st_null_image))
    = Some (job_of demo_job st_null_image) /\
  validateImageName (image_of (job_of demo_job st_null_image)) = false /\
  (fst (post_jobs_assign (Some demo_provider) (env_at 2000) st_null_image)
     = inl (resp 500 (BError "Failed to assign job")) /\
   providers (snd (post_jobs_assign (Some demo_provider) (env_at 2000)
                     st_null_image)) = providers st_null_image /\
   exists j', find_job_u (id (job_of demo_job st_null_image))
                (jobs (snd (post_jobs_assign (Some demo_provider)
                              (env_at 2000) st_null_image))) = Some j' /\
              status j' = Assigned /\ providerId j' = Some (uuid_demo 1) /\
              startedAt j' = Some (now (env_at 2000) (reads st_null_image))).
Proof.
  assert (H1 : pg_uuid demo_provider = Some (uuid_demo 1)) by (vm_compute; reflexivity).
  assert (H2 : find_provider_u (uuid_demo 1) (providers st_null_image)
                 = Some (mkProvider (uuid_demo 1) None POnline "gpu" 500))
    by (vm_compute; reflexivity).
  assert (H3 : p_status (mkProvider (uuid_demo 1) None POnline "gpu" 500) = POnline)
    by reflexivity.
  assert (H4 : NoDup (map id (jobs st_null_image)))
    by (cbn; constructor; [cbn; tauto | constructor]).
  assert (H5 : first_oldest (filter is_queued (jobs st_null_image))
                 = Some (job_of demo_job st_null_image)) by (vm_compute; reflexivity).
  assert (H6 : validateImageName (image_of (job_of demo_job st_null_image)) = false)
    by (vm_compute; reflexivity).
  split; [exact H1|]. split; [exact H2|]. split; [exact H3|]. split; [exact H4|].
  split; [exact H5|]. split; [exact H6|].
  exact (C4_failed_config_keeps_claim demo_provider (uuid_demo 1) (env_at 2000)
           st_null_image _ _ H1 H2 H3 H4 H5 H6).
Defined.

(** ** Job cost *)

Lemma num_eqb_eq (x y : num) : num_eqb x y = true -> x = y.
Proof.
  destruct x as [a|a| |a m e], y as [b|b| |b n f]; cbn; try discriminate; intros H.
  - apply Bool.eqb_prop in H. subst. reflexivity.
  - apply Bool.eqb_prop in H. subst. reflexivity.
  - reflexivity.
  - repeat rewrite andb_true_iff in H. destruct H as [[H1 H2] H3].
    apply Bool.eqb_prop in H1. apply Pos.eqb_eq in H2. apply Z.eqb_eq in H3.
    subst. reflexivity.
Qed.

Lemma forallb_zrange (f : Z -> bool) (lo : Z) (n : nat) :
  forallb f (zrange lo n) = true -> forall z, lo <= z < lo + Z.of_nat n -> f z = true.
Proof.
  intros H z Hz. rewrite forallb_forall in H. apply H.
  unfold zrange. apply in_map_iff. exists (Z.to_nat (z - lo)). split; [lia|].
  apply in_seq. lia.
Qed.

Lemma calculateJobCost_shift (t s e : Z) :
  calculateJobCost (t + s) (t + e) = calculateJobCost s e.
Proof. unfold calculateJobCost. replace (t + e - (t + s)) with (e - s) by lia. reflexivity. Qed.

(** C6 (counterexample): [calculateJobCost] does not clamp at zero; with
    the end ten minutes before the start the cost is -1.00, not 0. *)
Lemma C6_negative_cost :
  calculateJobCost 600000 0 = of_Z (-1) /\ ltb_zero (calculateJobCost 600000 0) = true.
Proof. split; vm_compute; reflexivity. Qed.

(** C6 (amended): [calculateJobCost] is
    [Math.round(((e - s)/1000/60 * 0.10) * 100) / 100] in binary64, with
    no clamping at zero. For every start time [t]: an empty interval
    costs 0 and ten minutes cost 1.00; for every whole number [m] of
    minutes with [|m| <= 1440], [m] minutes cost [m/10] (the double
    nearest to it), so a reversed interval has a negative cost (-1.00 for
    ten minutes); an end 1 to 2999 ms before the start gives [-0], and
    3000 to 6000 ms before gives a negative cost. *)
Theorem C6_calculateJobCost_values (t : Z) :
  calculateJobCost t t = zero /\
  calculateJobCost t (t + 600000) = of_Z 1 /\
  calculateJobCost (t + 600000) t = of_Z (-1) /\
  (forall m, -1440 <= m <= 1440 ->
     calculateJobCost t (t + m * 60000) = div (of_Z m) (of_Z 10)) /\
  (forall d, 1 <= d <= 2999 -> calculateJobCost (t + d) t = S754_zero true) /\
  (forall d, 3000 <= d <= 6000 -> ltb_zero (calculateJobCost (t + d) t) = true).
Proof.
  assert (Hm : forall m, -1440 <= m <= 1440 ->
                 calculateJobCost 0 (m * 60000) = div (of_Z m) (of_Z 10)).
  { intros m Hm. apply num_eqb_eq.
    refine (forallb_zrange
              (fun m => num_eqb (calculateJobCost 0 (m * 60000)) (div (of_Z m) (of_Z 10)))
              (-1440) 2881 _ m _); [vm_compute; reflexivity | lia]. }
  assert (Hz : forall d, 1 <= d <= 2999 -> calculateJobCost d 0 = S754_zero true).
  { intros d Hd. apply num_eqb_eq.
    refine (forallb_zrange (fun d => num_eqb (calculateJobCost d 0) (S754_zero true))
              1 2999 _ d _); [vm_compute; reflexivity | lia]. }
  assert (Hn : forall d, 3000 <= d <= 6000 -> ltb_zero (calculateJobCost d 0) = true).
  { intros d Hd.
    refine (forallb_zrange (fun d => ltb_zero (calculateJobCost d 0)) 3000 3001 _ d _);
      [vm_compute; reflexivity | lia]. }
  assert (Sh : forall s e, calculateJobCost (t + s) (t + e) = calculateJobCost s e)
    by apply calculateJobCost_shift.
  split; [|split; [|split; [|split; [|split]]]].
  - rewrite <- (Z.add_0_r t), Sh. vm_compute. reflexivity.
  - rewrite <- (Z.add_0_r t) at 1. rewrite Sh. vm_compute. reflexivity.
  - rewrite <- (Z.add_0_r t) at 2. rewrite Sh. vm_compute. reflexivity.
  - intros m H. rewrite <- (Z.add_0_r t) at 1. rewrite Sh. apply Hm, H.
  - intros d H. rewrite <- (Z.add_0_r t) at 2. rewrite Sh. apply Hz, H.
  - intros d H. rewrite <- (Z.add_0_r t) at 2. rewrite Sh. apply Hn, H.
Qed.

Lemma C6_witness :
  calculateJobCost 1000 (1000 + 30 * 60000) = div (of_Z 30) (of_Z 10) /\
  calculateJobCost (1000 + 2500) 1000 = S754_zero true /\
  ltb_zero (calculateJobCost (1000 + 4000) 1000) = true.
Proof.
  destruct (C6_calculateJobCost_values 1000) as (_ & _ & _ & Hm & Hz & Hn).
  split; [apply Hm; lia|]. split; [apply Hz; lia | apply Hn; lia].
Defined.

(** ** A function served alone is one of the interleavings *)

Lemma replace_nth_last {T} (l : list T) (x y : T) :
  replace_nth (List.length l) x (l ++ [y]) = l ++ [x].
Proof. induction l as [|a l IH]; cbn; [reflexivity | rewrite IH; reflexivity]. Qed.

Lemma exec_thread_last {A} (ths : list (Env * Prog A)) env p st :
  exec_thread (List.length ths) (ths ++ [(env, p)]) st =
  (ths ++ [(env, fst (exec_seg p env st))], snd (exec_seg p env st)).
Proof.
  unfold exec_thread. rewrite nth_error_app2, Nat.sub_diag by lia. cbn.
  destruct (exec_seg p env st) as [p' st']. rewrite replace_nth_last. reflexivity.
Qed.

Lemma creach_exec_last ths env p st :
  creach (mkConf st (ths ++ [(env, p)])) ->
  creach (mkConf (snd (exec_seg p env st)) (ths ++ [(env, fst (exec_seg p env st))])).
Proof.
  intros H. pose proof (creach_step (Exec (List.length ths)) _ H) as H'.
  unfold cact in H'. cbn [c_threads c_state] in H'. rewrite exec_thread_last in H'.
  exact H'.
Qed.

Lemma creach_run_last ths env (p : Prog (option Response)) :
  forall st p0 st0, creach (mkConf st0 (ths ++ [(env, p0)])) ->
  exec_seg p0 env st0 = exec_seg p env st ->
  creach (mkConf (snd (run p env st)) (ths ++ [(env, of_result (fst (run p env st)))])).
Proof.
  induction p as [a|e|B op k IH|B op k IH]; intros st p0 st0 Hc He.
  - apply creach_exec_last in Hc. rewrite He in Hc. exact Hc.
  - apply creach_exec_last in Hc. rewrite He in Hc. exact Hc.
  - cbn in He |- *. destruct (op env st) as [r st'] eqn:E.
    apply (IH r st' p0 st0 Hc He).
  - cbn in He |- *. destruct (op env st) as [r st'] eqn:E.
    apply creach_exec_last in Hc. rewrite He in Hc. cbn [fst snd] in Hc.
    apply (IH r st' (k r) st' Hc eq_refl).
Qed.

Lemma creach_serve (r : Request) (env : Env) (c : Conf) :
  creach c -> creach (serve r env c).
Proof.
  intros H. destruct c as [st ths].
  pose proof (creach_step (Arrive r env) _ H) as H'. cbn in H'.
  pose proof (creach_run_last ths env (handle r) st (handle r) st H' eq_refl) as H2.
  unfold serve. cbn [c_state c_threads].
  destruct (run (handle r) env st) as [res st']. exact H2.
Qed.

Lemma creach_run_acts (acts : list Action) : forall c, creach c -> creach (run_acts acts c).
Proof.
  induction acts as [|a acts IH]; intros c H; cbn; [exact H|].
  apply IH, creach_step, H.
Qed.

Lemma creach_conf_2b : creach conf_2b.
Proof. unfold conf_2b. repeat apply creach_serve. apply creach_init. Qed.

(** ** Claims one after the other *)

Lemma claim_run (p : string) (pu : Uuid) (env : Env) (st : State) :
  pg_uuid p = Some pu ->
  claim p env st = (inl None, st) \/
  exists j, first_oldest (filter is_queued (jobs st)) = Some j /\
    claim p env st =
      (inl (Some (dbJobToJob j)),
       mkState (update_job (id j) (set_assigned pu (now env (reads st))) (jobs st))
         (providers st) (payments st) (draws st) (S (reads st))).
Proof.
  intros Hp. unfold claim, getNextJob, assignJob, update_assign, select_job,
    select_next_queued, uuid_param. cbn.
  destruct (first_oldest (filter is_queued (jobs st))) as [j|] eqn:E; cbn.
  - right. exists j. split; [reflexivity|]. rewrite Hp, pg_uuid_text. cbn. reflexivity.
  - left. reflexivity.
Qed.

Lemma queued_ids_update_assign (u pu : Uuid) (t : Date) (js : list Job) (x : string) :
  In x (queued_ids (update_job u (set_assigned pu t) js)) ->
  In x (queued_ids js) /\ x <> uuid_text u.
Proof.
  unfold queued_ids, update_job.
  induction js as [|j js IH]; cbn; [contradiction|].
  destruct (uuid_eqb (id j) u) eqn:E; cbn.
  - intros H. destruct (IH H) as [H1 H2].
    split; [destruct (is_queued j); [right|]; exact H1 | exact H2].
  - destruct (is_queued j) eqn:Q; cbn.
    + intros [<-|H].
      * split; [left; reflexivity|].
        intros He. apply uuid_text_inj in He. apply uuid_eqb_neq in E. contradiction.
      * destruct (IH H) as [H1 H2]. split; [right; exact H1 | exact H2].
    + exact IH.
Qed.

Lemma claim_serial_run (ps : list string) :
  forall env st, Forall (fun p => pg_uuid p <> None) ps ->
  exists rs st', claim_serial ps env st = (inl rs, st') /\ NoDup (claimed_ids rs) /\
    forall x, In x (claimed_ids rs) -> In x (queued_ids (jobs st)).
Proof.
  induction ps as [|p rest IH]; intros env st Hps.
  - exists [], st. split; [reflexivity|]. split; [constructor | contradiction].
  - inversion Hps as [|p' rest' Hp Hrest]; subst.
    destruct (pg_uuid p) as [pu|] eqn:Hpu; [|contradiction].
    cbn [claim_serial]. rewrite run_bind.
    destruct (claim_run p pu env st Hpu) as [E | (j & Hj & E)]; rewrite E.
    + rewrite run_bind. destruct (IH env st Hrest) as (rs & st' & E' & Hnd & Hsub).
      rewrite E'. exists (None :: rs), st'. split; [reflexivity|]. cbn. auto.
    + rewrite run_bind.
      match goal with |- context [run (claim_serial rest) env ?s] =>
        destruct (IH env s Hrest) as (rs & st' & E' & Hnd & Hsub); rewrite E' end.
      exists (Some (dbJobToJob j) :: rs), st'. split; [reflexivity|].
      cbn [claimed_ids flat_map app o_id dbJobToJob]. cbn [jobs] in Hsub.
      assert (Hq : In (uuid_text (id j)) (queued_ids (jobs st))).
      { unfold queued_ids. apply (in_map (fun k => uuid_text (id k))). apply first_oldest_in, Hj. }
      split.
      * constructor; [|exact Hnd].
        intros Hin. apply Hsub, queued_ids_update_assign in Hin.
        destruct Hin as [_ Hne]. apply Hne. reflexivity.
      * intros x [<-|Hin]; [exact Hq|].
        apply Hsub, queued_ids_update_assign in Hin. apply Hin.
Qed.

Lemma find_job_u_in (js : list Job) (j : Job) :
  In j js -> exists j', find_job_u (id j) js = Some j'.
Proof.
  intros Hin. destruct (find_job_u (id j) js) as [j'|] eqn:F; [eauto|].
  unfold find_job_u in F. apply (find_none _ _ F) in Hin.
  rewrite uuid_eqb_refl in Hin. discriminate.
Qed.

Lemma claims_interleaved (pA pB : string) (uA uB : Uuid) (envA envB : Env)
  (st : State) (j : Job) :
  pg_uuid pA = Some uA -> pg_uuid pB = Some uB ->
  first_oldest (filter is_queued (jobs st)) = Some j ->
  map snd (fst (run_sched [0; 1; 0; 1; 0; 1]%nat
                  [(envA, claim pA); (envB, claim pB)] st))
    = [Done (Some (dbJobToJob j)); Done (Some (dbJobToJob j))] /\
  option_map providerId
    (find_job_u (id j) (jobs (snd (run_sched [0; 1; 0; 1; 0; 1]%nat
                                     [(envA, claim pA); (envB, claim pB)] st))))
    = Some (Some uB).
Proof.
  intros HA HB Hq.
  unfold claim, getNextJob, assignJob, update_assign, select_job, select_next_queued,
    uuid_param.
  crunch ltac:(rewrite ?HA, ?HB, ?Hq, ?pg_uuid_text).
  split; [reflexivity|].
  rewrite !find_job_update_same by reflexivity.
  destruct (find_job_u_in (jobs st) j) as (j' & F).
  { apply first_oldest_in, filter_In in Hq. apply Hq. }
  rewrite F. reflexivity.
Qed.

(** ** The rows of the [jobs] table, under any interleaving *)

Lemma guar_refl (st st' : State) : jobs st' = jobs st -> guar st st'.
Proof. intros E j Hj. exists j. rewrite E. auto. Qed.

Lemma guar_trans (s1 s2 s3 : State) : guar s1 s2 -> guar s2 s3 -> guar s1 s3.
Proof.
  intros H1 H2 j Hj. destruct (H1 j Hj) as (j2 & Hj2 & Hid2 & Hp2).
  destruct (H2 j2 Hj2) as (j3 & Hj3 & Hid3 & Hp3).
  exists j3. split; [exact Hj3|]. split; [congruence|]. auto.
Qed.

Lemma store_inv_jobs (st st' : State) : jobs st' = jobs st -> store_inv st -> store_inv st'.
Proof. unfold store_inv. intros E. rewrite E. auto. Qed.

Lemma stable_and (K1 K2 : State -> Prop) :
  stable K1 -> stable K2 -> stable (fun s => K1 s /\ K2 s).
Proof. intros H1 H2 s s' [A B] G. split; [exact (H1 _ _ A G) | exact (H2 _ _ B G)]. Qed.

Lemma stable_true : stable (fun _ => True).
Proof. intros s s' _ _. exact I. Qed.

Lemma has_provider_stable (jid : string) : stable (has_provider jid).
Proof.
  intros s s' (j & Hj & Hu & Hp) G. destruct (G j Hj) as (j' & Hj' & Hid & Hp').
  exists j'. split; [exact Hj'|]. split; [rewrite Hid; exact Hu | auto].
Qed.

Lemma safe_weaken {A} (p : Prog A) :
  forall K (Q Q' : A -> (State -> Prop) -> Prop),
  safe K p Q -> (forall a K', Q a K' -> Q' a K') -> safe K p Q'.
Proof.
  induction p as [a|e|B op k IH|B op k IH]; intros K Q Q' H HQ; cbn in *; auto;
    intros env st Hi HK; destruct (H env st Hi HK) as (H1 & H2 & K' & H3 & H4 & H5);
    (split; [exact H1|]); (split; [exact H2|]); exists K';
    (split; [exact H3|]); (split; [exact H4|]); eapply IH; eauto.
Qed.

Lemma safe_bind {A B} (p : Prog A) (f : A -> Prog B) :
  forall K Q R, safe K p Q -> (forall a K', Q a K' -> safe K' (f a) R) ->
  safe K (bind p f) R.
Proof.
  induction p as [a|e|C op k IH|C op k IH]; intros K Q R H Hf; cbn in *; auto;
    intros env st Hi HK; destruct (H env st Hi HK) as (H1 & H2 & K' & H3 & H4 & H5);
    (split; [exact H1|]); (split; [exact H2|]); exists K';
    (split; [exact H3|]); (split; [exact H4|]); eapply IH; eauto.
Qed.

Lemma safe_antimono (P : State -> Prop) {A} (p : Prog A) (K K2 : State -> Prop) :
  stable K2 -> (forall s, K2 s -> P s) -> (forall s, K2 s -> K s) ->
  safe K p (fun _ K' => stable K' /\ forall s, K' s -> P s) ->
  safe K2 p (fun _ K' => stable K' /\ forall s, K' s -> P s).
Proof.
  intros HK2 HP2 Hsub H. destruct p as [a|e|B op k|B op k]; cbn in *; auto;
    intros env st Hi HK; apply H; auto.
Qed.

Lemma su_ret (P : State -> Prop) {A} (a : A) : safe_under P (ret a).
Proof. intros K HK HP. cbn. auto. Qed.

Lemma su_throw (P : State -> Prop) {A} (e : string) : safe_under P (@throw A e).
Proof. intros K HK HP. exact I. Qed.

Lemma su_of_result (P : State -> Prop) {A} (r : A + string) : safe_under P (of_result r).
Proof. intros K HK HP. destruct r; cbn; auto. Qed.

Lemma su_bind (P : State -> Prop) {A B} (p : Prog A) (f : A -> Prog B) :
  safe_under P p -> (forall a, safe_under P (f a)) -> safe_under P (bind p f).
Proof.
  intros Hp Hf K HK HP.
  apply safe_bind with (Q := fun _ K' => stable K' /\ forall s, K' s -> P s).
  - apply Hp; assumption.
  - intros a K' [H1 H2]. apply Hf; assumption.
Qed.

Lemma su_catch (P : State -> Prop) {A} (p : Prog A) (h : string -> Prog A) :
  stable P -> safe_under P p -> (forall e, safe_under P (h e)) ->
  safe_under P (catch p h).
Proof.
  intros HPs Hp Hh K HK HP. specialize (Hp K HK HP). revert K HK HP Hp.
  induction p as [a|e|B op k IH|B op k IH]; intros K HK HP Hp; cbn in *.
  - exact Hp.
  - apply Hh; assumption.
  - intros env st Hi HKs. destruct (Hp env st Hi HKs) as (H1 & H2 & K' & H3 & H4 & H5).
    split; [exact H1|]. split; [exact H2|].
    exists (fun s => K' s /\ P s).
    assert (Hs : stable (fun s => K' s /\ P s)) by (apply stable_and; assumption).
    split; [split; [exact H3 | exact (HPs _ _ (HP _ HKs) H2)]|].
    split; [exact Hs|].
    apply IH; [exact Hs | intros s [_ Ps]; exact Ps |].
    apply safe_antimono with K'; [exact Hs | intros s [_ Ps]; exact Ps |
                                  intros s [Ks _]; exact Ks | exact H5].
  - intros env st Hi HKs. destruct (Hp env st Hi HKs) as (H1 & H2 & K' & H3 & H4 & H5).
    split; [exact H1|]. split; [exact H2|].
    exists (fun s => K' s /\ P s).
    assert (Hs : stable (fun s => K' s /\ P s)) by (apply stable_and; assumption).
    split; [split; [exact H3 | exact (HPs _ _ (HP _ HKs) H2)]|].
    split; [exact Hs|].
    apply IH; [exact Hs | intros s [_ Ps]; exact Ps |].
    apply safe_antimono with K'; [exact Hs | intros s [_ Ps]; exact Ps |
                                  intros s [Ks _]; exact Ks | exact H5].
Qed.

Lemma op_ok_keeps (P : State -> Prop) {A} (op : M A) : keeps_jobs op -> op_ok P op.
Proof.
  intros Hk env st Hi _. split.
  - apply store_inv_jobs with st; [apply Hk | exact Hi].
  - apply guar_refl, Hk.
Qed.

Lemma su_step (P : State -> Prop) {A B} (op : M B) (k : B + string -> Prog A) :
  op_ok P op -> (forall r, safe_under P (k r)) -> safe_under P (Step op k).
Proof.
  intros Hop Hk K HK HP env st Hi HKs.
  destruct (Hop env st Hi (HP _ HKs)) as [H1 H2].
  split; [exact H1|]. split; [exact H2|]. exists K.
  split; [exact (HK _ _ HKs H2)|]. split; [exact HK|]. apply Hk; assumption.
Qed.

Lemma su_syncstep (P : State -> Prop) {A B} (op : M B) (k : B + string -> Prog A) :
  op_ok P op -> (forall r, safe_under P (k r)) -> safe_under P (Sync op k).
Proof.
  intros Hop Hk K HK HP env st Hi HKs.
  destruct (Hop env st Hi (HP _ HKs)) as [H1 H2].
  split; [exact H1|]. split; [exact H2|]. exists K.
  split; [exact (HK _ _ HKs H2)|]. split; [exact HK|]. apply Hk; assumption.
Qed.

Lemma su_await (P : State -> Prop) {A} (op : M A) : op_ok P op -> safe_under P (await op).
Proof. intros H. apply su_step; [exact H | intros r; apply su_of_result]. Qed.

Lemma su_sync (P : State -> Prop) {A} (op : M A) : op_ok P op -> safe_under P (sync op).
Proof. intros H. apply su_syncstep; [exact H | intros r; apply su_of_result]. Qed.

Ltac keeps_tac :=
  intros env st;
  repeat (first [ progress cbn | destr_inner ]); reflexivity.

Lemma keeps_new_Date : keeps_jobs new_Date.
Proof. unfold new_Date; keeps_tac. Qed.
Lemma keeps_uuidv4 : keeps_jobs uuidv4.
Proof. unfold uuidv4; keeps_tac. Qed.
Lemma keeps_ask : keeps_jobs ask.
Proof. unfold ask; keeps_tac. Qed.
Lemma keeps_select_provider pid : keeps_jobs (select_provider pid).
Proof. unfold select_provider, uuid_param; keeps_tac. Qed.
Lemma keeps_update_provider_online pid g : keeps_jobs (update_provider_online pid g).
Proof. unfold update_provider_online, uuid_param; keeps_tac. Qed.
Lemma keeps_insert_provider pid o g t : keeps_jobs (insert_provider pid o g t).
Proof. unfold insert_provider, uuid_param; keeps_tac. Qed.
Lemma keeps_select_next_queued : keeps_jobs select_next_queued.
Proof. unfold select_next_queued; keeps_tac. Qed.
Lemma keeps_select_queued : keeps_jobs select_queued.
Proof. unfold select_queued; keeps_tac. Qed.
Lemma keeps_select_job jid : keeps_jobs (select_job jid).
Proof. unfold select_job, uuid_param; keeps_tac. Qed.
Lemma keeps_select_jobs_for_user u l s : keeps_jobs (select_jobs_for_user u l s).
Proof. unfold select_jobs_for_user, uuid_param, status_param, with_limit; keeps_tac. Qed.
Lemma keeps_select_all_jobs l s : keeps_jobs (select_all_jobs l s).
Proof. unfold select_all_jobs, status_param, with_limit; keeps_tac. Qed.
Lemma keeps_update_provider_status pid s : keeps_jobs (update_provider_status pid s).
Proof. unfold update_provider_status, uuid_param; keeps_tac. Qed.
Lemma keeps_select_online_providers : keeps_jobs select_online_providers.
Proof. unfold select_online_providers; keeps_tac. Qed.
Lemma keeps_insert_payment a b c d e : keeps_jobs (insert_payment a b c d e).
Proof. unfold insert_payment, uuid_param, numeric_param; keeps_tac. Qed.
Lemma keeps_paymentIntents_create : keeps_jobs paymentIntents_create.
Proof. unfold paymentIntents_create; keeps_tac. Qed.

Create HintDb keeps.
#[local] Hint Resolve keeps_new_Date keeps_uuidv4 keeps_ask keeps_select_provider
  keeps_update_provider_online keeps_insert_provider keeps_select_next_queued
  keeps_select_queued keeps_select_job keeps_select_jobs_for_user keeps_select_all_jobs
  keeps_update_provider_status keeps_select_online_providers keeps_insert_payment
  keeps_paymentIntents_create : keeps.

Lemma update_job_ok (u : Uuid) (f : Job -> Job) (st : State) :
  store_inv st ->
  (forall j, In j (jobs st) -> id j = u ->
     id (f j) = id j /\ row_ok (f j) /\ (providerId j <> None -> providerId (f j) <> None)) ->
  store_inv (with_jobs (update_job u f (jobs st)) st) /\
  guar st (with_jobs (update_job u f (jobs st)) st).
Proof.
  intros [Hnd Hrows] Hf.
  assert (Hmap : map id (update_job u f (jobs st)) = map id (jobs st)).
  { unfold update_job. rewrite map_map. apply map_ext_in. intros j Hj.
    destruct (uuid_eqb (id j) u) eqn:E; [|reflexivity].
    apply uuid_eqb_eq in E. apply (Hf j Hj E). }
  split; [split|].
  - cbn [with_jobs jobs]. rewrite Hmap. exact Hnd.
  - cbn [with_jobs jobs]. unfold update_job. apply Forall_map.
    rewrite Forall_forall in Hrows |- *. intros j Hj.
    destruct (uuid_eqb (id j) u) eqn:E; [|apply Hrows, Hj].
    apply uuid_eqb_eq in E. apply (Hf j Hj E).
  - intros j Hj. exists (if uuid_eqb (id j) u then f j else j).
    split; [cbn [with_jobs jobs]; unfold update_job;
            apply (in_map (fun j => if uuid_eqb (id j) u then f j else j)), Hj|].
    destruct (uuid_eqb (id j) u) eqn:E; [|auto].
    apply uuid_eqb_eq in E. destruct (Hf j Hj E) as (H1 & _ & H3). auto.
Qed.

Lemma nodup_id_eq (js : list Job) (a b : Job) :
  NoDup (map id js) -> In a js -> In b js -> id a = id b -> a = b.
Proof.
  intros Hnd Ha Hb E. pose proof (find_job_nodup js a Hnd Ha) as Fa.
  pose proof (find_job_nodup js b Hnd Hb) as Fb. rewrite E in Fa. congruence.
Qed.

Lemma has_provider_row (jid : string) (st : State) (u : Uuid) (j : Job) :
  store_inv st -> has_provider jid st -> pg_uuid jid = Some u -> In j (jobs st) ->
  id j = u -> providerId j <> None /\ startedAt j <> None.
Proof.
  intros [Hnd Hrows] (j0 & Hj0 & Hu0 & Hp0) Hu Hj Hid.
  assert (E : j = j0) by (apply (nodup_id_eq (jobs st)); auto; congruence).
  subst j0. rewrite Forall_forall in Hrows. specialize (Hrows j Hj).
  unfold row_ok in Hrows. destruct (status j); tauto.
Qed.

Lemma op_ok_update_assign (P : State -> Prop) jid pid t :
  op_ok P (update_assign jid pid t).
Proof.
  intros env st Hi _. unfold update_assign, uuid_param.
  destruct (pg_uuid pid) as [p|]; [|split; [exact Hi | apply guar_refl; reflexivity]].
  destruct (pg_uuid jid) as [u|]; [|split; [exact Hi | apply guar_refl; reflexivity]].
  cbn [snd]. apply update_job_ok; [exact Hi|]. intros j _ _.
  split; [reflexivity|]. split; [split; discriminate | intros _; discriminate].
Qed.

Lemma op_ok_update_running (P : State -> Prop) jid t :
  (forall s, P s -> has_provider jid s) -> op_ok P (update_running jid t).
Proof.
  intros HP env st Hi Hs. unfold update_running, uuid_param.
  destruct (pg_uuid jid) as [u|] eqn:Hu; [|split; [exact Hi | apply guar_refl; reflexivity]].
  cbn [snd]. apply update_job_ok; [exact Hi|]. intros j Hj Hid.
  destruct (has_provider_row jid st u j Hi (HP _ Hs) Hu Hj Hid) as [Hp _].
  split; [reflexivity|]. split; [split; [exact Hp | discriminate] | auto].
Qed.

Lemma op_ok_update_finished (P : State -> Prop) jid s t c :
  (s = Completed \/ s = Failed) ->
  (forall s, P s -> has_provider jid s) -> op_ok P (update_finished jid s t c).
Proof.
  intros Hs HP env st Hi Hst. unfold update_finished, numeric_param, uuid_param.
  destruct (to_numeric c) as [v|]; [|split; [exact Hi | apply guar_refl; reflexivity]].
  destruct (pg_uuid jid) as [u|] eqn:Hu; [|split; [exact Hi | apply guar_refl; reflexivity]].
  cbn [snd]. apply update_job_ok; [exact Hi|]. intros j Hj Hid.
  destruct (has_provider_row jid st u j Hi (HP _ Hst) Hu Hj Hid) as [Hp Hsa].
  split; [reflexivity|].
  split; [|auto].
  unfold row_ok, set_finished; cbn [status providerId startedAt finishedAt].
  destruct Hs as [-> | ->]; (split; [exact Hp|]); (split; [exact Hsa | discriminate]).
Qed.

Lemma existsb_id_fresh (u : Uuid) (js : list Job) :
  existsb (fun j => uuid_eqb (id j) u) js = false -> ~ In u (map id js).
Proof.
  induction js as [|j js IH]; cbn; [auto|].
  intros H. apply orb_false_iff in H. destruct H as [H1 H2].
  intros [E|Hin]; [rewrite E, uuid_eqb_refl in H1; discriminate | exact (IH H2 Hin)].
Qed.

Lemma op_ok_insert_job (P : State -> Prop) jid uid img cmd t :
  op_ok P (insert_job jid uid img cmd t).
Proof.
  intros env st Hi _. unfold insert_job, uuid_param.
  destruct (pg_uuid jid) as [u|]; [|split; [exact Hi | apply guar_refl; reflexivity]].
  destruct (pg_uuid uid) as [v|]; [|split; [exact Hi | apply guar_refl; reflexivity]].
  destruct (varchar_in 255 img) as [img'|]; [|split; [exact Hi | apply guar_refl; reflexivity]].
  destruct (negb _); [split; [exact Hi | apply guar_refl; reflexivity]|].
  destruct (existsb _ _) eqn:E; [split; [exact Hi | apply guar_refl; reflexivity]|].
  apply existsb_id_fresh in E. destruct Hi as [Hnd Hrows].
  cbn [snd with_jobs jobs]. split; [split|].
  - unfold with_jobs. cbn [jobs]. rewrite map_app. cbn [map].
    apply (Permutation_NoDup (Permutation_cons_append (map id (jobs st)) u)).
    constructor; assumption.
  - unfold with_jobs. cbn [jobs]. apply Forall_app. split; [exact Hrows|].
    constructor; [|constructor]. unfold row_ok; cbn. auto.
  - intros j Hj. exists j. split; [unfold with_jobs; cbn [jobs]; apply in_or_app; left; exact Hj|]. auto.
Qed.

Create HintDb opok.
#[local] Hint Resolve op_ok_update_assign op_ok_insert_job op_ok_update_running : opok.

Create HintDb su.

Ltac su_tac :=
  repeat match goal with
  | |- safe_under _ (catch _ _) => apply su_catch; [assumption | | intro]
  | |- safe_under _ (bind _ _) => apply su_bind; [ | intro]
  | |- safe_under _ (ret _) => apply su_ret
  | |- safe_under _ (throw _) => apply su_throw
  | |- safe_under _ (of_result _) => apply su_of_result
  | |- safe_under _ (of_sum _) => apply su_of_result
  | |- safe_under _ (await _) => apply su_await
  | |- safe_under _ (sync _) => apply su_sync
  | |- safe_under _ (match ?x with _ => _ end) => destruct x
  | |- op_ok _ _ => first [ apply op_ok_keeps; solve [auto with keeps]
                          | solve [eauto with opok] ]
  | |- safe_under _ _ => first [ progress (cbv beta zeta) | solve [eauto with su] ]
  end.

Section Handlers.

Variable P : State -> Prop.
Hypothesis HPs : stable P.

Lemma su_getNextJob : safe_under P getNextJob.
Proof. unfold getNextJob. su_tac. Qed.

Lemma su_assignJob jid pid : safe_under P (assignJob jid pid).
Proof. unfold assignJob. su_tac. Qed.

Lemma su_createJob u img cmd : safe_under P (createJob u img cmd).
Proof. unfold createJob. su_tac. Qed.

Lemma su_listJobsForUser u l s : safe_under P (listJobsForUser u l s).
Proof. unfold listJobsForUser. su_tac. Qed.

Lemma su_listAllJobs l s : safe_under P (listAllJobs l s).
Proof. unfold listAllJobs. su_tac. Qed.

Lemma su_getJob jid : safe_under P (getJob jid).
Proof. unfold getJob. su_tac. Qed.

Lemma su_countQueuedJobs : safe_under P countQueuedJobs.
Proof. unfold countQueuedJobs. su_tac. Qed.

Lemma su_chargeForJob jid uid a d : safe_under P (chargeForJob jid uid a d).
Proof. unfold chargeForJob, simulatePayment. su_tac. Qed.

Lemma su_completed_cost et job : safe_under P (completed_cost et job).
Proof. unfold completed_cost. su_tac. Qed.

Lemma su_failed_cost job : safe_under P (failed_cost job).
Proof. unfold failed_cost. su_tac. Qed.

End Handlers.

#[local] Hint Resolve su_getNextJob su_assignJob su_createJob su_listJobsForUser
  su_listAllJobs su_getJob su_countQueuedJobs su_chargeForJob su_completed_cost su_failed_cost : su.

Section Report.

Variable P : State -> Prop.
Hypothesis HPs : stable P.
Variable jid : string.
Hypothesis HPj : forall s, P s -> has_provider jid s.

Lemma su_markJobRunning : safe_under P (markJobRunning jid).
Proof. unfold markJobRunning. su_tac. Qed.

Lemma su_markJobCompleted c : safe_under P (markJobCompleted jid c).
Proof.
  unfold markJobCompleted. su_tac.
  apply op_ok_update_finished; [left; reflexivity | exact HPj].
Qed.

Lemma su_markJobFailed c : safe_under P (markJobFailed jid c).
Proof.
  unfold markJobFailed. su_tac.
  apply op_ok_update_finished; [right; reflexivity | exact HPj].
Qed.

Lemma su_report_switch pid s et job : safe_under P (report_switch jid pid s et job).
Proof.
  pose proof su_markJobRunning. pose proof su_markJobCompleted.
  pose proof su_markJobFailed.
  unfold report_switch. su_tac.
Qed.

End Report.

Lemma su_getJob_bind (P : State -> Prop) {B} (jid : string) (f : option JobObj -> Prog B) :
  stable P ->
  (forall j, providerId j <> None ->
     safe_under (fun s => P s /\ has_provider jid s) (f (Some (dbJobToJob j)))) ->
  (forall j, providerId j = None -> safe_under P (f (Some (dbJobToJob j)))) ->
  safe_under P (f None) ->
  safe_under P (bind (getJob jid) f).
Proof.
  intros HPs H1 H2 H3 K HK HP. unfold getJob. cbn [bind await safe].
  intros env st Hi HKs.
  assert (Est : snd (select_job jid env st) = st)
    by (unfold select_job, uuid_param; destruct (pg_uuid jid); reflexivity).
  rewrite Est. split; [exact Hi|]. split; [apply guar_refl; reflexivity|].
  destruct (fst (select_job jid env st)) as [[j|]|e] eqn:Ef; cbn [bind of_result ret].
  - destruct (providerId j) eqn:Hp.
    + exists (fun s => K s /\ has_provider jid s).
      assert (Hs : stable (fun s => K s /\ has_provider jid s))
        by (apply stable_and; [exact HK | apply has_provider_stable]).
      split.
      { split; [exact HKs|].
        unfold select_job, uuid_param in Ef. destruct (pg_uuid jid) as [w|] eqn:Hu;
          [|discriminate]. cbn in Ef. injection Ef as Ef.
        apply find_job_u_spec in Ef. destruct Ef as [Hj Hid].
        exists j. split; [exact Hj|]. split; [rewrite Hid; exact Hu | rewrite Hp; discriminate]. }
      split; [exact Hs|].
      apply safe_weaken with
        (Q := fun _ K' => stable K' /\ forall s, K' s -> P s /\ has_provider jid s).
      * apply H1; [rewrite Hp; discriminate | exact Hs |].
        intros s [Ks Hh]. split; [apply HP, Ks | exact Hh].
      * intros a K' [HK' HP']. split; [exact HK'|]. intros s Ks. apply HP', Ks.
    + exists K. split; [exact HKs|]. split; [exact HK|]. apply H2; assumption.
  - exists K. split; [exact HKs|]. split; [exact HK|]. apply H3; assumption.
  - exists K. split; [exact HKs|]. split; [exact HK|]. exact I.
Qed.

Section Handlers2.

Variable P : State -> Prop.
Hypothesis HPs : stable P.

Lemma su_post_jobs_report jid pid s et : safe_under P (post_jobs_report jid pid s et).
Proof.
  unfold post_jobs_report. apply su_catch; [exact HPs | | intros; apply su_ret].
  destruct jid as [j|]; [|apply su_ret]. destruct pid as [p|]; [|apply su_ret].
  destruct s as [s|]; [|apply su_ret].
  destruct (negb _); [apply su_ret|].
  apply su_getJob_bind; [exact HPs | | | apply su_ret].
  - intros job Hp. cbn [o_providerId dbJobToJob].
    destruct (option_map uuid_text (providerId job)) as [jp|]; [|apply su_ret].
    destruct (String.eqb jp p); [|apply su_ret].
    apply su_report_switch; [apply stable_and; [exact HPs | apply has_provider_stable] |].
    intros st [_ H]. exact H.
  - intros job Hp. cbn [o_providerId dbJobToJob]. rewrite Hp. cbn. apply su_ret.
Qed.

Lemma su_post_providers_register a b c : safe_under P (post_providers_register a b c).
Proof. unfold post_providers_register. su_tac. Qed.

Lemma su_post_jobs_assign a : safe_under P (post_jobs_assign a).
Proof. unfold post_jobs_assign. su_tac. Qed.

Lemma su_post_jobs a b c : safe_under P (post_jobs a b c).
Proof. unfold post_jobs. su_tac. Qed.

Lemma su_get_job a : safe_under P (get_job a).
Proof. unfold get_job. su_tac. Qed.

Lemma su_get_jobs a b c : safe_under P (get_jobs a b c).
Proof. unfold get_jobs. su_tac. Qed.

Lemma su_assign_loop ps : safe_under P (assign_loop ps).
Proof. induction ps as [|pr ps IH]; cbn [assign_loop]; su_tac. Qed.

Lemma su_processQueue : safe_under P processQueue.
Proof. pose proof su_assign_loop. unfold processQueue. su_tac. Qed.

Lemma su_handle r : safe_under P (handle r).
Proof.
  pose proof su_post_jobs_report. pose proof su_post_providers_register.
  pose proof su_post_jobs_assign. pose proof su_post_jobs. pose proof su_get_job.
  pose proof su_get_jobs. pose proof su_processQueue.
  destruct r; cbn [handle]; su_tac.
Qed.

End Handlers2.

Lemma exec_seg_safe {A} (p : Prog A) :
  forall (K : State -> Prop) Q env st, store_inv st -> K st -> stable K -> safe K p Q ->
  store_inv (snd (exec_seg p env st)) /\ guar st (snd (exec_seg p env st)) /\
  exists K', K' (snd (exec_seg p env st)) /\ stable K' /\
             safe K' (fst (exec_seg p env st)) Q.
Proof.
  induction p as [a|e|B op k IH|B op k IH]; intros K Q env st Hi HKs HK Hs.
  - cbn. split; [exact Hi|]. split; [apply guar_refl; reflexivity|]. eauto.
  - cbn. split; [exact Hi|]. split; [apply guar_refl; reflexivity|]. eauto.
  - cbn in Hs. destruct (Hs env st Hi HKs) as (H1 & H2 & K' & H3 & H4 & H5).
    cbn [exec_seg]. destruct (op env st) as [r st'] eqn:E. cbn [fst snd] in *.
    destruct (IH r K' Q env st' H1 H3 H4 H5) as (H6 & H7 & H8).
    split; [exact H6|]. split; [exact (guar_trans _ _ _ H2 H7) | exact H8].
  - cbn in Hs. destruct (Hs env st Hi HKs) as (H1 & H2 & K' & H3 & H4 & H5).
    cbn [exec_seg]. destruct (op env st) as [r st'] eqn:E. cbn [fst snd] in *.
    split; [exact H1|]. split; [exact H2|]. eauto.
Qed.

Lemma Forall_replace_nth {T} (Pr : T -> Prop) (i : nat) (x : T) (l : list T) :
  Forall Pr l -> Pr x -> Forall Pr (replace_nth i x l).
Proof.
  revert i. induction l as [|y l IH]; intros i Hl Hx; destruct i; cbn; auto;
    inversion Hl; subst; constructor; auto.
Qed.

Lemma conf_inv_init : conf_inv conf0.
Proof. split; [split; constructor | constructor]. Qed.

Lemma conf_inv_step (a : Action) (c : Conf) : conf_inv c -> conf_inv (cact a c).
Proof.
  destruct c as [st ths]. intros [Hi Hths]. destruct a as [r env|i]; cbn [cact c_state c_threads].
  - split; [exact Hi|]. cbn [c_state c_threads]. apply Forall_app. split; [exact Hths|].
    constructor; [|constructor]. exists (fun _ => True).
    split; [exact I|]. split; [exact stable_true|].
    apply safe_weaken with (Q := fun _ K' => stable K' /\ forall s, K' s -> True);
      [apply su_handle; auto using stable_true | auto].
  - unfold exec_thread. destruct (nth_error ths i) as [[env p]|] eqn:N;
      [|split; assumption].
    pose proof (proj1 (Forall_forall _ _) Hths _ (nth_error_In _ _ N)) as (K & HKs & HK & Hs).
    cbn [snd] in Hs.
    destruct (exec_seg_safe p K _ env st Hi HKs HK Hs) as (H1 & H2 & K' & H3 & H4 & H5).
    destruct (exec_seg p env st) as [p' st'] eqn:E. cbn [fst snd] in *.
    split; [exact H1|]. cbn [c_state c_threads].
    apply Forall_replace_nth; [|exists K'; auto].
    eapply Forall_impl; [|exact Hths]. intros th (K0 & Hk0 & Hst0 & Hsafe0).
    exists K0. split; [exact (Hst0 _ _ Hk0 H2)|]. auto.
Qed.

Lemma creach_conf_inv (c : Conf) : creach c -> conf_inv c.
Proof.
  induction 1 as [|a c _ IH]; [exact conf_inv_init | exact (conf_inv_step a c IH)].
Qed.

(** C8: the rows of the [jobs] table in every configuration the process
    reaches, with requests and ticks interleaved at their [await]s: ids
    are distinct; a queued row has no provider, no [startedAt], no
    [finishedAt] and cost 0; an assigned or running row has a provider and
    a [startedAt]; a completed or failed row has a provider, a [startedAt]
    and a [finishedAt]. *)
Theorem C8_reachable_job_rows (c : Conf) :
  creach c ->
  NoDup (map id (jobs (c_state c))) /\ forall j, In j (jobs (c_state c)) -> row_ok j.
Proof.
  intros H. destruct (creach_conf_inv c H) as [[Hnd Hrows] _].
  split; [exact Hnd|]. apply Forall_forall, Hrows.
Qed.

Lemma C8_witness :
  creach conf_stale /\ row_ok (job_of demo_job (c_state conf_stale)).
Proof.
  assert (Hc : creach conf_stale) by exact (creach_run_acts stale_acts conf_2b creach_conf_2b).
  split; [exact Hc|].
  apply (proj2 (C8_reachable_job_rows conf_stale Hc)).
  vm_compute. left. reflexivity.
Defined.

(** C8 (counterexample): a [POST /jobs/assign] that read the queued job
    before another provider was assigned it and reported it completed
    writes the row back to [assigned]: [startedAt] is set on an assigned
    row, and [finishedAt] and a cost of 1.00 remain. *)
Lemma C8_stale_assign_after_completion :
  creach conf_stale /\
  status (job_of demo_job (c_state conf_stale)) = Assigned /\
  startedAt (job_of demo_job (c_state conf_stale)) = Some 3000 /\
  finishedAt (job_of demo_job (c_state conf_stale)) = Some 4000 /\
  cost (job_of demo_job (c_state conf_stale)) = NumCents 100.
Proof.
  split; [exact (creach_run_acts stale_acts conf_2b creach_conf_2b)|].
  vm_compute. repeat split.
Qed.

(** C1: claims that run one after the other (each given a provider id
    that is a UUID) succeed, never win the same job, and win only jobs
    queued when they started; two claims whose reads both precede their
    writes both win the oldest queued job, and the later [assignJob]
    leaves the job with the second provider. *)
Theorem C1_serial_claims_distinct :
  (forall (ps : list string) (env : Env) (st : State),
     Forall (fun p => pg_uuid p <> None) ps ->
     exists rs, fst (claim_serial ps env st) = inl rs /\ NoDup (claimed_ids rs) /\
       forall x, In x (claimed_ids rs) -> In x (queued_ids (jobs st))) /\
  (forall (pA pB : string) (uA uB : Uuid) (envA envB : Env) (st : State) (j : Job),
     pg_uuid pA = Some uA -> pg_uuid pB = Some uB ->
     first_oldest (filter is_queued (jobs st)) = Some j ->
     map snd (fst (run_sched [0; 1; 0; 1; 0; 1]%nat
                     [(envA, claim pA); (envB, claim pB)] st))
       = [Done (Some (dbJobToJob j)); Done (Some (dbJobToJob j))] /\
     option_map providerId
       (find_job_u (id j) (jobs (snd (run_sched [0; 1; 0; 1; 0; 1]%nat
                                        [(envA, claim pA); (envB, claim pB)] st))))
       = Some (Some uB)).
Proof.
  split.
  - intros ps env st Hps. destruct (claim_serial_run ps env st Hps) as (rs & st' & E & H).
    exists rs. rewrite E. split; [reflexivity | exact H].
  - exact claims_interleaved.
Qed.

Lemma C1_witness :
  (exists rs, fst (claim_serial [demo_provider; demo_provider2] (env_at 3000) scen2b)
                = inl rs /\ NoDup (claimed_ids rs) /\
              forall x, In x (claimed_ids rs) -> In x (queued_ids (jobs scen2b))) /\
  map snd (fst (run_sched [0; 1; 0; 1; 0; 1]%nat
                  [(env_at 3000, claim demo_provider); (env_at 3000, claim demo_provider2)]
                  scen2b))
    = [Done (Some (dbJobToJob (job_of demo_job scen2b)));
       Done (Some (dbJobToJob (job_of demo_job scen2b)))].
Proof.
  split.
  - apply (proj1 C1_serial_claims_distinct).
    constructor; [vm_compute; discriminate | constructor; [vm_compute; discriminate | constructor]].
  - apply (proj2 C1_serial_claims_distinct demo_provider demo_provider2
             (uuid_demo 1) (uuid_demo 2) (env_at 3000) (env_at 3000) scen2b
             (job_of demo_job scen2b));
      vm_compute; reflexivity.
Defined.

(** C1 (counterexample): both providers' [POST /jobs/assign] answer 200
    with the same job, and the job ends with the second provider. *)
Lemma C1_interleaved_claims_share_job :
  creach conf_race /\
  match c_threads conf_race with
  | [_; _; _; (_, Done (Some (resp 200 (BAssigned a1 _))));
              (_, Done (Some (resp 200 (BAssigned a2 _))))] =>
      o_id a1 = demo_job /\ o_id a2 = demo_job /\
      o_providerId a1 = Some demo_provider /\ o_providerId a2 = Some demo_provider2
  | _ => False
  end /\
  providerId (job_of demo_job (c_state conf_race)) = Some (uuid_demo 2).
Proof.
  split; [exact (creach_run_acts race_acts conf_2b creach_conf_2b)|].
  vm_compute. repeat split.
Qed.

(** ** The job queue and the job runner's tick *)

Lemma oldest_min (b : Job) (js : list Job) (k : Job) :
  In k (b :: js) -> createdAt (oldest b js) <= createdAt k.
Proof.
  revert b k. induction js as [|j js IH]; intros b k Hk; cbn.
  - destruct Hk as [<-|[]]. lia.
  - set (b' := if createdAt j <? createdAt b then j else b).
    assert (Hb' : createdAt (oldest b' js) <= createdAt b')
      by (apply IH; left; reflexivity).
    destruct Hk as [<-|[<-|Hk]].
    + unfold b' in *. destruct (Z.ltb_spec (createdAt j) (createdAt b)); lia.
    + unfold b' in *. destruct (Z.ltb_spec (createdAt j) (createdAt b)); lia.
    + apply IH. right. exact Hk.
Qed.

(** X1: getNextJob reads without writing; it returns nothing exactly when
    no row is queued, and otherwise the view of a queued row of least
    [createdAt]. *)
Theorem X1_getNextJob_oldest (env : Env) (st : State) :
  snd (getNextJob env st) = st /\
  match fst (getNextJob env st) with
  | inl None => forall j, In j (jobs st) -> status j <> Queued
  | inl (Some nj) =>
      exists j, In j (jobs st) /\ status j = Queued /\ nj = dbJobToJob j /\
        forall k, In k (jobs st) -> status k = Queued -> createdAt j <= createdAt k
  | inr _ => False
  end.
Proof.
  unfold getNextJob, select_next_queued, first_oldest; cbn. split; [reflexivity|].
  destruct (filter is_queued (jobs st)) as [|b rest] eqn:Hq; cbn.
  - intros j Hj Hs. apply is_queued_status in Hs.
    assert (H : In j (filter is_queued (jobs st))) by (apply filter_In; auto).
    rewrite Hq in H. exact H.
  - assert (Hin : In (oldest b rest) (filter is_queued (jobs st)))
      by (rewrite Hq; apply oldest_in).
    apply filter_In in Hin. destruct Hin as [Hin Hqo].
    exists (oldest b rest). split; [exact Hin|]. split; [apply is_queued_status, Hqo|].
    split; [reflexivity|]. intros k Hk Hks. apply oldest_min.
    rewrite <- Hq. apply filter_In. split; [exact Hk | apply is_queued_status, Hks].
Qed.

Lemma update_job_absent (x : Uuid) (f : Job -> Job) (js : list Job) :
  ~ In x (map id js) -> update_job x f js = js.
Proof.
  unfold update_job. induction js as [|j js IH]; cbn; intros H; [reflexivity|].
  destruct (uuid_eqb (id j) x) eqn:E;
    [apply uuid_eqb_eq in E; exfalso; apply H; left; exact E|].
  f_equal. apply IH. intros H'. apply H. right. exact H'.
Qed.

Lemma count_queued_pos (js : list Job) (j : Job) :
  In j js -> status j = Queued -> (1 <= count_queued js)%nat.
Proof.
  intros Hj Hs. unfold count_queued.
  assert (H : In j (filter is_queued js))
    by (apply filter_In; split; [exact Hj | apply is_queued_status, Hs]).
  destruct (filter is_queued js); [contradiction | cbn; lia].
Qed.

Lemma update_job_cons (x : Uuid) (f : Job -> Job) (k : Job) (js : list Job) :
  update_job x f (k :: js) = (if uuid_eqb (id k) x then f k else k) :: update_job x f js.
Proof. reflexivity. Qed.

Lemma count_queued_assign (js : list Job) (j : Job) (p : Uuid) (t : Date) :
  NoDup (map id js) -> In j js -> status j = Queued ->
  count_queued (update_job (id j) (set_assigned p t) js) = (count_queued js - 1)%nat.
Proof.
  induction js as [|k js IH]; [contradiction|].
  intros Hnd Hj Hs. inversion Hnd as [|y l Hnotin Hnd' Hyl]; subst.
  rewrite update_job_cons. unfold count_queued in *; cbn [filter].
  destruct Hj as [<-|Hj].
  - rewrite uuid_eqb_refl. rewrite update_job_absent by exact Hnotin.
    cbn [is_queued set_assigned status JobStatus_eqb].
    apply is_queued_status in Hs. rewrite Hs. cbn [List.length]. lia.
  - assert (Hne : id k <> id j)
      by (intros E; apply Hnotin; rewrite E; apply in_map, Hj).
    apply uuid_eqb_neq in Hne. rewrite Hne.
    pose proof (count_queued_pos js j Hj Hs) as Hpos. unfold count_queued in Hpos.
    destruct (is_queued k); cbn [List.length]; rewrite (IH Hnd' Hj Hs); lia.
Qed.

Lemma map_id_update_job (u : Uuid) (f : Job -> Job) (js : list Job) :
  (forall j, id (f j) = id j) -> map id (update_job u f js) = map id js.
Proof.
  intros Hf. unfold update_job. rewrite map_map. apply map_ext. intros j.
  destruct (uuid_eqb (id j) u); [apply Hf | reflexivity].
Qed.

Lemma assign_loop_cons (p : Provider) (rest : list Provider) (env : Env) (st : State) :
  assign_loop (p :: rest) env st =
  match first_oldest (filter is_queued (jobs st)) with
  | None => (inl tt, st)
  | Some j =>
      assign_loop rest env
        (mkState (update_job (id j) (set_assigned (p_id p) (now env (reads st))) (jobs st))
           (set_provider (p_id p) (with_status PBusy) (providers st))
           (payments st) (draws st) (S (reads st)))
  end.
Proof.
  cbn [assign_loop]. unfold getNextJob, assignJob, update_assign, select_job,
    select_next_queued, update_provider_status, uuid_param.
  cbn. destruct (first_oldest (filter is_queued (jobs st))) as [j|]; cbn; [|reflexivity].
  crunch ltac:(rewrite ?pg_uuid_text). reflexivity.
Qed.

Lemma first_oldest_none (js : list Job) : first_oldest js = None -> js = [].
Proof. destruct js; [reflexivity | discriminate]. Qed.

Lemma count_queued_loop (ps : list Provider) (env : Env) (st : State) :
  NoDup (map id (jobs st)) ->
  count_queued (jobs (snd (assign_loop ps env st))) =
  (count_queued (jobs st) - Nat.min (List.length ps) (count_queued (jobs st)))%nat.
Proof.
  revert st. induction ps as [|p rest IH]; intros st Hnd.
  - cbn. lia.
  - rewrite assign_loop_cons.
    destruct (first_oldest (filter is_queued (jobs st))) as [j|] eqn:Hq.
    + destruct (first_oldest_queued _ _ Hq) as [Hj Hqj].
      rewrite IH.
      * cbn [jobs]. rewrite (count_queued_assign _ j _ _ Hnd Hj Hqj).
        pose proof (count_queued_pos _ _ Hj Hqj). cbn [List.length]. lia.
      * cbn [jobs]. rewrite map_id_update_job by reflexivity. exact Hnd.
    + apply first_oldest_none in Hq. cbn [snd]. unfold count_queued. rewrite Hq. cbn. lia.
Qed.

Lemma processQueue_state (env : Env) (st : State) :
  snd (processQueue env st) =
  if Nat.eqb (count_queued (jobs st)) 0 then st
  else snd (assign_loop (online_providers (providers st)) env st).
Proof.
  unfold processQueue. rewrite run_catch. rewrite run_bind.
  unfold countQueuedJobs. rewrite run_bind. cbn.
  unfold count_queued. destruct (Nat.eqb _ 0); [reflexivity|].
  cbn. destruct (online_providers (providers st)) as [|p ps]; [reflexivity|].
  cbv beta iota. destruct (assign_loop (p :: ps) env st) as [[x|e] st']; reflexivity.
Qed.

(** X2: one tick of the job runner assigns as many jobs as there are
    online providers, or all queued jobs if there are fewer (given
    distinct job ids, the primary key). *)
Theorem X2_processQueue_assigns_min (env : Env) (st : State) :
  NoDup (map id (jobs st)) ->
  count_queued (jobs (snd (processQueue env st))) =
  (count_queued (jobs st) -
   Nat.min (List.length (online_providers (providers st))) (count_queued (jobs st)))%nat.
Proof.
  intros Hnd. rewrite processQueue_state.
  destruct (Nat.eqb_spec (count_queued (jobs st)) 0) as [E|E].
  - rewrite E. lia.
  - apply count_queued_loop, Hnd.
Qed.

Lemma X2_witness :
  NoDup (map id (jobs scen2)) /\
  count_queued (jobs (snd (processQueue (env_at 3000) scen2))) =
  (count_queued (jobs scen2) -
   Nat.min (List.length (online_providers (providers scen2))) (count_queued (jobs scen2)))%nat.
Proof.
  assert (H : NoDup (map id (jobs scen2)))
    by (vm_compute; constructor; [intros [] | constructor]).
  split; [exact H | apply (X2_processQueue_assigns_min (env_at 3000) scen2 H)].
Defined.

Lemma in_update_job_other (x : Uuid) (f : Job -> Job) (js : list Job) (j : Job) :
  In j js -> id j <> x -> In j (update_job x f js).
Proof.
  intros Hj Hx. unfold update_job. apply in_map_iff. exists j. split; [|exact Hj].
  apply uuid_eqb_neq in Hx. rewrite Hx. reflexivity.
Qed.

Lemma assign_loop_keeps (ps : list Provider) (env : Env) (st : State) :
  NoDup (map id (jobs st)) ->
  (forall j, In j (jobs st) -> status j <> Queued ->
     In j (jobs (snd (assign_loop ps env st)))) /\
  payments (snd (assign_loop ps env st)) = payments st.
Proof.
  revert st. induction ps as [|p rest IH]; intros st Hnd.
  - cbn. split; [auto | reflexivity].
  - rewrite assign_loop_cons.
    destruct (first_oldest (filter is_queued (jobs st))) as [k|] eqn:Hq;
      [|cbn [snd]; split; [auto | reflexivity]].
    destruct (first_oldest_queued _ _ Hq) as [Hk Hqk].
    match goal with |- context [run (assign_loop rest) env ?s] => set (st1 := s) end.
    assert (Hnd1 : NoDup (map id (jobs st1))).
    { unfold st1; cbn [jobs]. rewrite map_id_update_job by reflexivity. exact Hnd. }
    destruct (IH st1 Hnd1) as [Hkeep Hpay]. split.
    + intros j Hj Hs. apply Hkeep; [|exact Hs].
      unfold st1; cbn [jobs]. apply in_update_job_other; [exact Hj|].
      intros E. assert (j = k) as -> by (apply (nodup_id_eq (jobs st)); assumption).
      contradiction.
    + rewrite Hpay. reflexivity.
Qed.

(** X3: a tick of the job runner only claims queued rows: every row that
    is not queued is still in the table unchanged afterwards, and the
    payments table is untouched (given distinct job ids). *)
Theorem X3_processQueue_touches_only_queued (env : Env) (st : State) :
  NoDup (map id (jobs st)) ->
  (forall j, In j (jobs st) -> status j <> Queued ->
     In j (jobs (snd (processQueue env st)))) /\
  payments (snd (processQueue env st)) = payments st.
Proof.
  intros Hnd. rewrite processQueue_state.
  destruct (Nat.eqb _ 0); [split; [auto | reflexivity]|].
  apply assign_loop_keeps, Hnd.
Qed.

Lemma X3_witness :
  NoDup (map id (jobs scen3)) /\
  ((forall j, In j (jobs scen3) -> status j <> Queued ->
     In j (jobs (snd (processQueue (env_at 6000) scen3)))) /\
   payments (snd (processQueue (env_at 6000) scen3)) = payments scen3).
Proof.
  assert (H : NoDup (map id (jobs scen3)))
    by (vm_compute; constructor; [intros [] | constructor]).
  split; [exact H | apply (X3_processQueue_touches_only_queued (env_at 6000) scen3 H)].
Defined.

(** ** Handlers of the orchestrator *)

Lemma varchar_in_short (n : nat) (s : string) :
  text_ok s = true -> (String.length s <= n)%nat -> varchar_in n s = Some s.
Proof.
  intros Ht Hl. unfold varchar_in. rewrite Ht. cbn [negb].
  apply Nat.leb_le in Hl. rewrite Hl. reflexivity.
Qed.

Lemma existsb_job_fresh (x : Uuid) (js : list Job) :
  ~ In x (map id js) -> existsb (fun j => uuid_eqb (id j) x) js = false.
Proof.
  induction js as [|j js IH]; cbn; [reflexivity|].
  intros Hn. destruct (uuid_eqb (id j) x) eqn:E.
  - apply uuid_eqb_eq in E. exfalso. apply Hn. left. exact E.
  - apply IH. intros Hi. apply Hn. right. exact Hi.
Qed.

Lemma find_job_u_snoc_fresh (x : Uuid) (js : list Job) (row : Job) :
  ~ In x (map id js) -> id row = x -> find_job_u x (js ++ [row]) = Some row.
Proof.
  intros H Hid. unfold find_job_u. induction js as [|j js IH]; cbn in *.
  - rewrite Hid, uuid_eqb_refl. reflexivity.
  - destruct (uuid_eqb (id j) x) eqn:E.
    + apply uuid_eqb_eq in E. exfalso. apply H. left. exact E.
    + apply IH. intros Hi. apply H. right. exact Hi.
Qed.

Lemma uuid_text_cons (u : Uuid) : exists a r, uuid_text u = String a r.
Proof. eexists _, _. reflexivity. Qed.

(** X13: POST /jobs with a UUID user id, an accepted image of at most 255
    characters and a fresh id draw appends one queued row and answers 201;
    a later GET /jobs/:id for that id answers 200 with the stored row. The
    two differ: the response has the [createdAt] of a second [new Date()],
    the user id as sent (the row has its canonical lowercase text), the
    command as sent (an empty one is stored as null) and cost [0]. *)
Theorem X13_post_jobs_then_get (u img : string) (cmd : option string) (uu : Uuid)
    (env env' : Env) (st : State) :
  isValidUUID u = true -> pg_uuid u = Some uu ->
  validateImageName img = true -> text_ok img = true -> (String.length img <= 255)%nat ->
  match cmd with Some c => text_ok c = true | None => True end ->
  ~ In (uuid env (draws st)) (map id (jobs st)) ->
  let row := mkJob (uuid env (draws st)) uu None (Some img) (or_null cmd) Queued
               (now env (reads st)) None None (NumCents 0) in
  let st' := mkState (jobs st ++ [row]) (providers st) (payments st)
               (S (draws st)) (S (S (reads st))) in
  post_jobs (Some u) (Some img) cmd env st =
    (inl (resp 201 (BJob (mkJobObj (uuid_text (uuid env (draws st))) u None img cmd Queued
                            (now env (S (reads st))) None None zero))), st') /\
  get_job (uuid_text (uuid env (draws st))) env' st' =
    (inl (resp 200 (BJob (dbJobToJob row))), st').
Proof.
  intros Hv Hu Hi Ht Hl Hc Hf. cbn zeta.
  pose proof (existsb_job_fresh _ _ Hf) as Hex.
  pose proof (varchar_in_short 255 img Ht Hl) as Hvc.
  destruct u as [|a0 u']; [cbv in Hv; discriminate|].
  destruct img as [|b0 img']; [cbv in Hi; discriminate|].
  split.
  - unfold post_jobs, createJob, insert_job, uuid_param, uuidv4, new_Date.
    crunch ltac:(rewrite ?Hv, ?Hi, ?Hu, ?Hvc, ?pg_uuid_text).
    destruct cmd as [[|c0 c]|]; cbn; [| rewrite Hc; cbn |];
      rewrite Hex; reflexivity.
  - destruct (uuid_text_cons (uuid env (draws st))) as (a & r & E).
    unfold get_job, getJob, select_job, uuid_param. rewrite E. cbn. rewrite <- E.
    rewrite pg_uuid_text. cbn.
    rewrite find_job_u_snoc_fresh by (exact Hf || reflexivity). reflexivity.
Qed.

Lemma X13_witness :
  match pg_uuid demo_user with
  | Some uu =>
      isValidUUID demo_user = true /\
      validateImageName "pytorch/pytorch"%string = true /\
      text_ok "pytorch/pytorch"%string = true /\
      ~ In (uuid (env_at 4000) (draws scen3)) (map id (jobs scen3)) /\
      let row := mkJob (uuid (env_at 4000) (draws scen3)) uu None
                   (Some "pytorch/pytorch"%string) (or_null (Some EmptyString)) Queued
                   (now (env_at 4000) (reads scen3)) None None (NumCents 0) in
      let st' := mkState (jobs scen3 ++ [row]) (providers scen3) (payments scen3)
                   (S (draws scen3)) (S (S (reads scen3))) in
      post_jobs (Some demo_user) (Some "pytorch/pytorch"%string) (Some EmptyString)
        (env_at 4000) scen3 =
        (inl (resp 201 (BJob (mkJobObj (uuid_text (uuid (env_at 4000) (draws scen3)))
                                demo_user None "pytorch/pytorch" (Some EmptyString) Queued
                                (now (env_at 4000) (S (reads scen3))) None None zero))),
         st') /\
      get_job (uuid_text (uuid (env_at 4000) (draws scen3))) (env_at 5000) st' =
        (inl (resp 200 (BJob (dbJobToJob row))), st')
  | None => False
  end.
Proof.
  destruct (pg_uuid demo_user) as [uu|] eqn:E; [|vm_compute in E; discriminate].
  assert (H1 : isValidUUID demo_user = true) by (vm_compute; reflexivity).
  assert (H2 : validateImageName "pytorch/pytorch"%string = true) by (vm_compute; reflexivity).
  assert (H3 : text_ok "pytorch/pytorch"%string = true) by (vm_compute; reflexivity).
  assert (H4 : (String.length "pytorch/pytorch" <= 255)%nat) by (cbn; lia).
  assert (H5 : ~ In (uuid (env_at 4000) (draws scen3)) (map id (jobs scen3)))
    by (vm_compute; intros [H|[]]; discriminate H).
  split; [exact H1 | split; [exact H2 | split; [exact H3 | split; [exact H5 |]]]].
  exact (X13_post_jobs_then_get demo_user "pytorch/pytorch" (Some EmptyString) uu
           (env_at 4000) (env_at 5000) scen3 H1 E H2 H3 H4 ltac:(vm_compute; reflexivity) H5).
Defined.

(** X14: POST /jobs with a non-empty user id and a non-empty image name the
    validator refuses answers 400 "Invalid Docker image name" and leaves the
    jobs, providers and payments tables as they were. *)
Theorem X14_post_jobs_bad_image (u img : string) (cmd : option string)
    (env : Env) (st : State) :
  u <> EmptyString -> img <> EmptyString -> validateImageName img = false ->
  fst (post_jobs (Some u) (Some img) cmd env st) =
    inl (resp 400 (BError "Invalid Docker image name")) /\
  jobs (snd (post_jobs (Some u) (Some img) cmd env st)) = jobs st /\
  providers (snd (post_jobs (Some u) (Some img) cmd env st)) = providers st /\
  payments (snd (post_jobs (Some u) (Some img) cmd env st)) = payments st.
Proof.
  intros Hu Hne Hi.
  destruct u as [|a u]; [contradiction|].
  destruct img as [|b img]; [contradiction|].
  unfold post_jobs, uuidv4. cbn.
  destruct (isValidUUID (String a u)); cbn; rewrite Hi; cbn; repeat split.
Qed.

Lemma X14_witness :
  demo_user <> EmptyString /\ "bad image"%string <> EmptyString /\
  validateImageName "bad image"%string = false /\
  fst (post_jobs (Some demo_user) (Some "bad image"%string) None (env_at 4000) scen3) =
    inl (resp 400 (BError "Invalid Docker image name")) /\
  jobs (snd (post_jobs (Some demo_user) (Some "bad image"%string) None (env_at 4000) scen3))
    = jobs scen3 /\
  providers (snd (post_jobs (Some demo_user) (Some "bad image"%string) None (env_at 4000)
                    scen3)) = providers scen3 /\
  payments (snd (post_jobs (Some demo_user) (Some "bad image"%string) None (env_at 4000)
                   scen3)) = payments scen3.
Proof.
  assert (H1 : demo_user <> EmptyString) by discriminate.
  assert (H2 : validateImageName "bad image"%string = false) by (vm_compute; reflexivity).
  assert (H3 : "bad image"%string <> EmptyString) by discriminate.
  split; [exact H1 | split; [exact H3 | split; [exact H2 |]]].
  apply X14_post_jobs_bad_image; assumption.
Defined.

(** X15: POST /jobs/report for a job id that is a UUID, with a non-empty
    provider id and status, changes nothing when no such job exists (404)
    or when the job is not held by the reporting provider (403), whatever
    status is reported. *)
Theorem X15_report_rejects (jid pid s : string) (u : Uuid) (et : option num)
    (env : Env) (st : State) :
  pid <> EmptyString -> s <> EmptyString -> pg_uuid jid = Some u ->
  match find_job_u u (jobs st) with
  | None =>
      post_jobs_report (Some jid) (Some pid) (Some s) et env st =
        (inl (resp 404 (BError "Job not found")), st)
  | Some j =>
      option_map uuid_text (providerId j) <> Some pid ->
      post_jobs_report (Some jid) (Some pid) (Some s) et env st =
        (inl (resp 403 (BError "This job is not assigned to this provider")), st)
  end.
Proof.
  intros Hp Hs Hu.
  destruct jid as [|a jr]; [cbv in Hu; discriminate|].
  destruct pid as [|b pr]; [contradiction|].
  destruct s as [|c sr]; [contradiction|].
  unfold post_jobs_report, getJob, select_job, uuid_param. cbn. rewrite Hu. cbn.
  destruct (find_job_u u (jobs st)) as [j|]; cbn; [|reflexivity].
  intros Hne. destruct (providerId j) as [p|]; cbn in *; [|reflexivity].
  destruct (String.eqb_spec (uuid_text p) (String b pr)) as [E|_];
    [rewrite E in Hne; contradiction | reflexivity].
Qed.

Lemma X15_witness :
  "someone-else"%string <> EmptyString /\ "completed"%string <> EmptyString /\
  pg_uuid demo_job = Some (uuid_demo 0) /\
  match find_job_u (uuid_demo 0) (jobs scen3) with
  | None =>
      post_jobs_report (Some demo_job) (Some "someone-else"%string) (Some "completed"%string)
        None (env_at 4000) scen3 = (inl (resp 404 (BError "Job not found")), scen3)
  | Some j =>
      option_map uuid_text (providerId j) <> Some "someone-else"%string ->
      post_jobs_report (Some demo_job) (Some "someone-else"%string) (Some "completed"%string)
        None (env_at 4000) scen3 =
        (inl (resp 403 (BError "This job is not assigned to this provider")), scen3)
  end.
Proof.
  assert (H1 : "someone-else"%string <> EmptyString) by discriminate.
  assert (H2 : "completed"%string <> EmptyString) by discriminate.
  assert (H3 : pg_uuid demo_job = Some (uuid_demo 0)) by (vm_compute; reflexivity).
  split; [exact H1 | split; [exact H2 | split; [exact H3 |]]].
  exact (X15_report_rejects _ _ _ (uuid_demo 0) None (env_at 4000) scen3 H1 H2 H3).
Defined.

(** X16: a report from the provider holding the job with a status other
    than running, completed and failed answers 400 "Invalid status" and
    changes nothing. *)
Theorem X16_report_invalid_status (jid s : string) (j : Job) (pu : Uuid)
    (et : option num) (env : Env) (st : State) :
  s <> EmptyString -> find_job jid (jobs st) = Some j -> providerId j = Some pu ->
  ~ In s ["running"; "completed"; "failed"]%string ->
  post_jobs_report (Some jid) (Some (uuid_text pu)) (Some s) et env st =
    (inl (resp 400 (BError "Invalid status")), st).
Proof.
  intros Hs Hf Hpj Hin.
  destruct (find_job_some _ _ _ Hf) as (u & Hu & Hfu).
  destruct jid as [|a jr]; [cbv in Hu; discriminate|].
  destruct s as [|c sr]; [contradiction|].
  unfold post_jobs_report, getJob, select_job, uuid_param.
  crunch ltac:(rewrite ?Hu, ?Hfu, ?Hpj).
  unfold report_switch.
  destruct (String.eqb_spec (String c sr) "running") as [E|_];
    [exfalso; apply Hin; rewrite E; left; reflexivity|].
  destruct (String.eqb_spec (String c sr) "completed") as [E|_];
    [exfalso; apply Hin; rewrite E; right; left; reflexivity|].
  destruct (String.eqb_spec (String c sr) "failed") as [E|_];
    [exfalso; apply Hin; rewrite E; right; right; left; reflexivity|].
  reflexivity.
Qed.

Lemma X16_witness :
  exists j, find_job demo_job (jobs scen3) = Some j /\
    providerId j = Some (uuid_demo 1) /\
    ~ In "done"%string ["running"; "completed"; "failed"]%string /\
    post_jobs_report (Some demo_job) (Some demo_provider) (Some "done"%string) None
      (env_at 4000) scen3 = (inl (resp 400 (BError "Invalid status")), scen3).
Proof.
  destruct (find_job demo_job (jobs scen3)) as [j|] eqn:E; [|vm_compute in E; discriminate].
  assert (Hp : providerId j = Some (uuid_demo 1))
    by (vm_compute in E; injection E as <-; reflexivity).
  assert (Hin : ~ In "done"%string ["running"; "completed"; "failed"]%string)
    by (cbn; intros [H|[H|[H|[]]]]; discriminate).
  exists j. split; [reflexivity | split; [exact Hp | split; [exact Hin |]]].
  exact (X16_report_invalid_status demo_job "done"%string j (uuid_demo 1) None
           (env_at 4000) scen3 ltac:(discriminate) E Hp Hin).
Defined.

Lemma filter_queued_nil (js : list Job) :
  (forall j, In j js -> status j <> Queued) -> filter is_queued js = [].
Proof.
  intros H. induction js as [|j js IH]; cbn; [reflexivity|].
  destruct (is_queued j) eqn:E.
  - apply is_queued_status in E. exfalso. apply (H j); [left; reflexivity | exact E].
  - apply IH. intros k Hk. apply H. right. exact Hk.
Qed.

(** X17: POST /jobs/assign with a provider id that is a UUID changes
    nothing when the provider is unknown or not online (400 "Provider not
    found or not available") or when no job is queued (200 with no job). *)
Theorem X17_assign_no_work (pid : string) (pu : Uuid) (env : Env) (st : State) :
  pg_uuid pid = Some pu ->
  ((forall p, find_provider_u pu (providers st) = Some p -> p_status p <> POnline) ->
   post_jobs_assign (Some pid) env st =
     (inl (resp 400 (BErrorNoJob "Provider not found or not available")), st)) /\
  (forall p, find_provider_u pu (providers st) = Some p -> p_status p = POnline ->
   (forall j, In j (jobs st) -> status j <> Queued) ->
   post_jobs_assign (Some pid) env st = (inl (resp 200 BNoJob), st)).
Proof.
  intros Hu. destruct pid as [|a pr]; [cbv in Hu; discriminate|].
  unfold post_jobs_assign, select_provider, uuid_param. cbn. rewrite Hu. cbn.
  split.
  - intros Hoff. destruct (find_provider_u pu (providers st)) as [p|] eqn:E;
      [|reflexivity].
    specialize (Hoff p eq_refl). cbn.
    destruct (p_status p); [reflexivity | contradiction | reflexivity].
  - intros p Hp Hon Hq. rewrite Hp. cbn. rewrite Hon. cbn.
    unfold getNextJob, select_next_queued. cbn.
    rewrite (filter_queued_nil _ Hq). reflexivity.
Qed.

Lemma X17_witness :
  pg_uuid demo_provider = Some (uuid_demo 1) /\
  ((forall p, find_provider_u (uuid_demo 1) (providers scen3) = Some p ->
              p_status p <> POnline) /\
   post_jobs_assign (Some demo_provider) (env_at 4000) scen3 =
     (inl (resp 400 (BErrorNoJob "Provider not found or not available")), scen3)) /\
  let st1 := snd (post_providers_register None None (Some "gpu"%string) (env_at 500) state0) in
  pg_uuid demo_job = Some (uuid_demo 0) /\
  exists p, find_provider_u (uuid_demo 0) (providers st1) = Some p /\ p_status p = POnline /\
  (forall j, In j (jobs st1) -> status j <> Queued) /\
  post_jobs_assign (Some demo_job) (env_at 600) st1 = (inl (resp 200 BNoJob), st1).
Proof.
  assert (H1 : pg_uuid demo_provider = Some (uuid_demo 1)) by (vm_compute; reflexivity).
  assert (H2 : forall p, find_provider_u (uuid_demo 1) (providers scen3) = Some p ->
                         p_status p <> POnline)
    by (intros p E; vm_compute in E; injection E as <-; discriminate).
  split; [exact H1|]. split.
  - split; [exact H2|]. apply (proj1 (X17_assign_no_work demo_provider (uuid_demo 1)
                                       (env_at 4000) scen3 H1)), H2.
  - cbv zeta.
    set (st1 := snd (post_providers_register None None (Some "gpu"%string) (env_at 500)
                       state0)).
    assert (H3 : pg_uuid demo_job = Some (uuid_demo 0)) by (vm_compute; reflexivity).
    split; [exact H3|].
    destruct (find_provider_u (uuid_demo 0) (providers st1)) as [p|] eqn:E;
      [|vm_compute in E; discriminate].
    assert (Hon : p_status p = POnline)
      by (vm_compute in E; injection E as <-; reflexivity).
    assert (Hq : forall j, In j (jobs st1) -> status j <> Queued)
      by (intros j Hj; vm_compute in Hj; destruct Hj).
    exists p. split; [reflexivity | split; [exact Hon | split; [exact Hq |]]].
    exact (proj2 (X17_assign_no_work demo_job (uuid_demo 0) (env_at 600) st1 H3)
             p E Hon Hq).
Defined.
